(** * Sparse BLAS dispatch layer: [aten/src/ATen/native/sparse/SparseBlas.cpp]

    A shallow embedding of the three entry points of the file

    - [addmv_out_sparse_csr],
    - [triangular_solve_out_sparse_csr_cpu],
    - [sparse_sampled_addmm_out_sparse_csr_cpu] (and its allocating wrapper),

    together with the tensor primitives they call.  Tensors that the C++ code
    receives as [Tensor&] or compares by address ([&result != &self]) live in
    a store and are passed by location; the read-only operands are passed by
    value.  A failing [TORCH_CHECK] is an exception: the computation stops and
    the store is the one reached so far. *)

From stdpp Require Import base gmap list strings pretty.

Open Scope Z_scope.

(** ** Tags of the tensor abstraction *)

(** Modelled from the spec: the layout tags of the tensor abstraction
    ([c10::Layout]), which is not part of this file. *)
Inductive Layout := kStrided | kSparse | kSparseCsr | kMkldnn.

(** Modelled from the spec: the dtype tags of the tensor abstraction
    ([c10::ScalarType]), which is not part of this file. *)
Inductive ScalarType :=
  | kByte | kChar | kShort | kInt | kLong | kHalf | kFloat | kDouble
  | kComplexFloat | kComplexDouble | kBool | kBFloat16.

#[global] Instance Layout_eq_dec : EqDecision Layout.
Proof. solve_decision. Defined.

#[global] Instance ScalarType_eq_dec : EqDecision ScalarType.
Proof. solve_decision. Defined.

(** How the tags are streamed into an error message. *)
Definition Layout_str (l : Layout) : string :=
  match l with
  | kStrided => "Strided" | kSparse => "Sparse"
  | kSparseCsr => "SparseCsr" | kMkldnn => "Mkldnn"
  end.

Definition ScalarType_str (t : ScalarType) : string :=
  match t with
  | kByte => "Byte" | kChar => "Char" | kShort => "Short" | kInt => "Int"
  | kLong => "Long" | kHalf => "Half" | kFloat => "Float" | kDouble => "Double"
  | kComplexFloat => "ComplexFloat" | kComplexDouble => "ComplexDouble"
  | kBool => "Bool" | kBFloat16 => "BFloat16"
  end.

(** ** Failures *)

(** The two failure mechanisms of the file: [TORCH_CHECK] raises an error
    carrying a message in every build; [TORCH_INTERNAL_ASSERT_DEBUG_ONLY]
    raises an internal assertion failure, and only in debug builds. *)
Inductive Error :=
  | CheckFailure (msg : string)
  | InternalAssertFailure (cond : string).

Inductive outcome (A : Type) :=
  | Ok (a : A)
  | Throw (e : Error).
Arguments Ok {A} a.
Arguments Throw {A} e.

(** Locations of tensor objects: two references are the same object exactly
    when their locations are equal. *)
Definition loc := nat.

(** ** Tensors *)

(** A tensor over a carrier [R] of elements: tags, shape, and either the
    elements in row-major order (strided layout) or the three CSR arrays (row
    pointers, column indices, stored values). *)
Record Tensor (R : Type) := mkTensor {
  layout : Layout;
  scalar_type : ScalarType;
  sizes : list Z;
  crow_indices : list Z;
  col_indices : list Z;
  values : list R
}.
Arguments mkTensor {R} _ _ _ _ _ _.
Arguments layout {R} _.
Arguments scalar_type {R} _.
Arguments sizes {R} _.
Arguments crow_indices {R} _.
Arguments col_indices {R} _.
Arguments values {R} _.

#[global] Instance Tensor_inhabited {R : Type} : Inhabited (Tensor R) :=
  populate (mkTensor kStrided kFloat [0] [] [] []).

Section SparseBlas.

(** The numeric carrier of tensor elements and of the scalars α and β.  No
    algebraic law is assumed, so the carrier may contain NaN and Inf. *)
Context {R : Type} `{EqDecision R}.
Variable zero : R.
Variable add mul : R → R → R.

#[local] Abbreviation Tensor := (Tensor R).

Definition dim (t : Tensor) : Z := Z.of_nat (length (sizes t)).
Definition size (t : Tensor) (d : nat) : Z := sizes t !!! d.
Definition numel (t : Tensor) : nat := Z.to_nat (foldr Z.mul 1 (sizes t)).
(** Modelled from the spec: nnz, the number of stored entries of a sparse
    matrix ([_nnz()]), read as the length of its column-index array.  The
    tensor abstraction defines it for sparse layouts only; a tensor without
    index arrays has none, and what is proved about calls that return is
    about a [mat] in CSR layout. *)
Definition _nnz (t : Tensor) : Z := Z.of_nat (length (col_indices t)).
Definition is_sparse_csr (t : Tensor) : bool := bool_decide (layout t = kSparseCsr).

(** Element [i] of a buffer; a read past its end yields zero. *)
Definition elem (v : list R) (i : nat) : R := default zero (v !! i).

Definition with_values (t : Tensor) (v : list R) : Tensor :=
  mkTensor (layout t) (scalar_type t) (sizes t) (crow_indices t) (col_indices t) v.

Definition with_sizes (t : Tensor) (s : list Z) (v : list R) : Tensor :=
  mkTensor (layout t) (scalar_type t) s (crow_indices t) (col_indices t) v.

(** ** The store and the computation monad *)

Definition M (A : Type) : Type := gmap loc Tensor → outcome A * gmap loc Tensor.

Definition ret {A} (a : A) : M A := λ st, (Ok a, st).
Definition throw {A} (e : Error) : M A := λ st, (Throw e, st).
Definition bind {A B} (m : M A) (k : A → M B) : M B :=
  λ st, match m st with
        | (Ok a, st') => k a st'
        | (Throw e, st') => (Throw e, st')
        end.

Definition read (l : loc) : M Tensor := λ st, (Ok (st !!! l), st).
Definition modify (l : loc) (f : Tensor → Tensor) : M unit :=
  λ st, (Ok tt, <[l := f (st !!! l)]> st).

Notation "x <- m ;; k" := (bind m (λ x, k))
  (at level 100, m at next level, right associativity).
Notation "m ;;; k" := (bind m (λ _, k))
  (at level 100, right associativity).

(** Modelled from the spec: the always-active validation macro
    [TORCH_CHECK(cond, msg...)] of [c10/util/Exception.h]. *)
Definition TORCH_CHECK (cond : bool) (msg : string) : M unit :=
  if cond then ret tt else throw (CheckFailure msg).

(** Modelled from the spec: [TORCH_INTERNAL_ASSERT_DEBUG_ONLY(cond)] of
    [c10/util/Exception.h], compiled out when [NDEBUG] is defined. *)
Definition TORCH_INTERNAL_ASSERT_DEBUG_ONLY (NDEBUG : bool) (cond : bool) (txt : string) : M unit :=
  if NDEBUG then ret tt
  else if cond then ret tt else throw (InternalAssertFailure txt).

(** ** Buffer-lifecycle primitives *)

(** Contents of a freshly allocated buffer of [n] elements: arbitrary. *)
Variable uninitialized : nat → list R.

(** Modelled from the spec: resize-to-shape ([at::native::resize_output]);
    a resize that changes the shape allocates new backing storage. *)
Definition resize_output (t : Tensor) (s : list Z) : Tensor :=
  if bool_decide (sizes t = s) then t
  else with_sizes t s (uninitialized (Z.to_nat (foldr Z.mul 1 s))).

(** Modelled from the spec: elementwise-copy ([copy_]). *)
Definition copy_ (t src : Tensor) : Tensor := with_values t (values src).

(** Modelled from the spec: zero-fill ([zero_]). *)
Definition zero_ (t : Tensor) : Tensor := with_values t (replicate (numel t) zero).

(** Modelled from the spec: a scalar tensor carrying β in a given dtype, on
    the CPU device ([at::native::scalar_tensor]). *)
Definition scalar_tensor (s : R) (dtype : ScalarType) : Tensor :=
  mkTensor kStrided dtype [] [] [] [s].

Definition item (t : Tensor) : R := elem (values t) 0.

(** Modelled from the spec: elementwise-scale ([at::mul_out] of a tensor and
    a scalar tensor); the output takes the shape of the scaled operand. *)
Definition mul_out (out a b : Tensor) : Tensor :=
  with_sizes out (sizes a) ((λ x, mul x (item b)) <$> values a).

(** Modelled from the spec: broadcast-to-shape, failing if incompatible
    ([expand_size(to_expand, {m})] of [ATen/ExpandUtils.h]).  The operand is
    returned as it is when it already has shape [(m,)]. *)
Definition expand_size (to_expand : Tensor) (m : Z) : M Tensor :=
  if bool_decide (sizes to_expand = [m]) then ret to_expand
  else if bool_decide (sizes to_expand = [] ∨ sizes to_expand = [1]) then
    ret (with_sizes to_expand [m] (replicate (Z.to_nat m) (item to_expand)))
  else
    throw (CheckFailure
      ("The expanded size of the tensor (" +:+ pretty m +:+
       ") must match the existing size")).

(** ** addmv *)

(** The backend CSR matrix-vector kernel
    [sparse::impl::cpu::addmv_out_sparse_csr(mat, vec, beta, alpha, result)]:
    it rewrites the output tensor it is handed. *)
Variable addmv_kernel : Tensor → Tensor → R → R → Tensor → Tensor.

Variable NDEBUG : bool.

(** Lines 41-46: output preparation. *)
Definition addmv_prepare_output (self result : loc) (self_ : Tensor) (beta : R) : M unit :=
  if bool_decide (result ≠ self) then
    modify result (λ r, resize_output r (sizes self_)) ;;;
    if bool_decide (beta ≠ zero) then modify result (λ r, copy_ r self_)
    else ret tt
  else ret tt.

(** The scalars β and α are taken in the element carrier, that is, already
    converted to the dtype of [self]; the test [betaval == 0.0] is equality
    with [zero], for a carrier with a single zero. *)
Definition addmv_out_sparse_csr
    (self : loc) (mat vec : Tensor) (beta alpha : R) (result : loc) : M loc :=
  TORCH_INTERNAL_ASSERT_DEBUG_ONLY NDEBUG (is_sparse_csr mat) "mat.is_sparse_csr()" ;;;
  TORCH_CHECK (bool_decide (dim mat = 2)) "addmv: Expected mat to be 2-D" ;;;
  TORCH_CHECK (bool_decide (dim vec = 1)) "addmv: Expected vec to be 1-D" ;;;
  s <- read self ;;
  self_ <- expand_size s (size mat 0) ;;
  addmv_prepare_output self result self_ beta ;;;
  if bool_decide (_nnz mat = 0) then
    if bool_decide (beta = zero) then
      modify result zero_ ;;; ret result
    else
      s' <- read self ;;
      modify result (λ r, mul_out r s' (scalar_tensor beta (scalar_type s'))) ;;;
      ret result
  else
    modify result (addmv_kernel mat vec beta alpha) ;;;
    ret result.

(** ** Triangular solve *)

(** The backend kernel
    [sparse::impl::cpu::triangular_solve_out_sparse_csr(A, B, X, upper, transpose, unitriangular)]:
    it rewrites the tensor [X] it is handed. *)
Variable triangular_solve_kernel : Tensor → Tensor → Tensor → bool → bool → bool → Tensor.

Definition triangular_solve_out_sparse_csr_cpu
    (B A : Tensor) (upper transpose unitriangular : bool) (X clone_A : loc) : M (loc * loc) :=
  modify X (λ x, triangular_solve_kernel A B x upper transpose unitriangular) ;;;
  ret (X, clone_A).

(** ** Dense and CSR primitives used by sampled addmm *)

(** Element [(i, j)] of a strided matrix stored in row-major order. *)
Definition get2 (t : Tensor) (i j : nat) : R :=
  elem (values t) (i * Z.to_nat (size t 1) + j).

Definition tabulate2 (m n : nat) (f : nat → nat → R) : list R :=
  flat_map (λ i, f i <$> seq 0 n) (seq 0 m).

(** Positions, in the column-index and value arrays, of the stored entries
    of row [i]: [crow[i] .. crow[i+1] - 1]. *)
Definition row_start (t : Tensor) (i : nat) : nat := Z.to_nat (crow_indices t !!! i).

Definition row_entries (t : Tensor) (i : nat) : list nat :=
  seq (row_start t i) (row_start t (S i) - row_start t i).

Definition col_at (t : Tensor) (k : nat) : nat := Z.to_nat (col_indices t !!! k).

(** The logical element [(i, j)] of a CSR matrix: the stored value at that
    coordinate, zero where nothing is stored. *)
Definition csr_get (t : Tensor) (i j : nat) : R :=
  match find (λ k, bool_decide (col_at t k = j)) (row_entries t i) with
  | Some k => elem (values t) k
  | None => zero
  end.

Definition nrows (t : Tensor) : nat := Z.to_nat (size t 0).
Definition ncols (t : Tensor) : nat := Z.to_nat (size t 1).

(** Modelled from the spec: [to_dense] of a CSR matrix, the logical m×n
    matrix it stores. *)
Definition to_dense (t : Tensor) : Tensor :=
  mkTensor kStrided (scalar_type t) (sizes t) [] []
    (tabulate2 (nrows t) (ncols t) (csr_get t)).

(** Entry [(i, j)] of the dense product [mat1 @ mat2]. *)
Definition matmul_entry (mat1 mat2 : Tensor) (i j : nat) : R :=
  foldl (λ acc k, add acc (mul (get2 mat1 i k) (get2 mat2 k j))) zero
    (seq 0 (ncols mat1)).

(** Modelled from the spec: the dense-matmul-accumulate primitive
    [addmm(dense, mat1, mat2, β, α)], which yields α·(mat1 @ mat2) + β·dense. *)
Definition addmm (inp mat1 mat2 : Tensor) (beta alpha : R) : Tensor :=
  mkTensor kStrided (scalar_type inp) [size mat1 0; size mat2 1] [] []
    (tabulate2 (nrows mat1) (ncols mat2)
       (λ i j, add (mul alpha (matmul_entry mat1 mat2 i j)) (mul beta (get2 inp i j)))).

(** Modelled from the spec: the mask-by-sparsity-pattern primitive
    [dense.sparse_mask(pattern)]: a CSR matrix with the coordinates of the
    pattern and the values the dense matrix has there. *)
Definition sparse_mask (dense pattern : Tensor) : Tensor :=
  mkTensor kSparseCsr (scalar_type dense) (sizes pattern)
    (crow_indices pattern) (col_indices pattern)
    (flat_map (λ i, (λ k, get2 dense i (col_at pattern k)) <$> row_entries pattern i)
       (seq 0 (nrows pattern))).

(** Modelled from the spec: CSR structural-copy ([resize_as_sparse_csr_]):
    shape, row pointers and column indices are copied from [src]; the values
    buffer is freshly allocated. *)
Definition resize_as_sparse_csr_ (t src : Tensor) : Tensor :=
  mkTensor (layout t) (scalar_type t) (sizes src)
    (crow_indices src) (col_indices src)
    (uninitialized (length (col_indices src))).

(** ** Sampled addmm *)

(** What the unchecked [IntArrayRef::operator[]] yields past the end of the
    array: arbitrary. *)
Variable out_of_range : list Z → nat → Z.

Definition IntArrayRef_at (a : list Z) (i : nat) : Z :=
  default (out_of_range a i) (a !! i).

Definition sparse_sampled_addmm_out_sparse_csr_cpu
    (self : loc) (mat1 mat2 : Tensor) (beta alpha : R) (result : loc) : M loc :=
  s <- read self ;;
  TORCH_INTERNAL_ASSERT_DEBUG_ONLY NDEBUG (is_sparse_csr s) "self.is_sparse_csr()" ;;;
  TORCH_CHECK (bool_decide (layout mat1 = kStrided))
    ("sampled_addmm: Expected mat1 to have strided layout, but got " +:+ Layout_str (layout mat1)) ;;;
  TORCH_CHECK (bool_decide (layout mat2 = kStrided))
    ("sampled_addmm: Expected mat2 to have strided layout, but got " +:+ Layout_str (layout mat2)) ;;;
  r <- read result ;;
  TORCH_CHECK (bool_decide (layout r = kSparseCsr))
    ("sampled_addmm: Expected result to have sparse csr layout, but got " +:+ Layout_str (layout r)) ;;;
  TORCH_CHECK (bool_decide (scalar_type mat1 = scalar_type mat2))
    ("sampled_addmm: Expected mat1 and mat2 to have the same dtype, but got " +:+
     ScalarType_str (scalar_type mat1) +:+ " and " +:+ ScalarType_str (scalar_type mat2)) ;;;
  TORCH_CHECK (bool_decide (scalar_type mat1 = scalar_type s))
    ("sampled_addmm: Expected mat1 and self to have the same dtype, but got " +:+
     ScalarType_str (scalar_type mat1) +:+ " and " +:+ ScalarType_str (scalar_type s)) ;;;
  TORCH_CHECK (bool_decide (scalar_type r = scalar_type s))
    ("sampled_addmm: Expected result and self to have the same dtype, but got " +:+
     ScalarType_str (scalar_type r) +:+ " and " +:+ ScalarType_str (scalar_type s)) ;;;
  TORCH_CHECK (bool_decide (dim mat1 = 2))
    ("sampled_addmm: Expected mat1 to be a matrix, got " +:+ pretty (dim mat1) +:+ "-D tensor") ;;;
  TORCH_CHECK (bool_decide (dim mat2 = 2))
    ("sampled_addmm: Expected mat2 to be a matrix, got " +:+ pretty (dim mat2) +:+ "-D tensor") ;;;
  TORCH_CHECK (bool_decide (dim r = 2))
    ("sampled_addmm: Expected result to be a matrix, got " +:+ pretty (dim r) +:+ "-D tensor") ;;;
  let mat1_sizes := sizes mat1 in
  let mat2_sizes := sizes mat2 in
  TORCH_CHECK (bool_decide (IntArrayRef_at mat1_sizes 1 = IntArrayRef_at mat2_sizes 0))
    ("sampled_addmm: mat1 and mat2 shapes cannot be multiplied (" +:+
     pretty (IntArrayRef_at mat1_sizes 0) +:+ "x" +:+ pretty (IntArrayRef_at mat1_sizes 1) +:+
     " and " +:+
     pretty (IntArrayRef_at mat2_sizes 0) +:+ "x" +:+ pretty (IntArrayRef_at mat2_sizes 1) +:+
     ")") ;;;
  let self_sizes := sizes s in
  TORCH_CHECK (bool_decide (IntArrayRef_at self_sizes 0 = IntArrayRef_at mat1_sizes 0))
    "sampled_addmm: self dim 0 must match mat1 dim 0" ;;;
  TORCH_CHECK (bool_decide (IntArrayRef_at self_sizes 1 = IntArrayRef_at mat2_sizes 1))
    "sampled_addmm: self dim 1 must match mat2 dim 1" ;;;
  (if bool_decide (result ≠ self) then modify result (λ r, resize_as_sparse_csr_ r s)
   else ret tt) ;;;
  s' <- read self ;;
  modify result (λ r, copy_ r (sparse_mask (addmm (to_dense s') mat1 mat2 beta alpha) s')) ;;;
  ret result.

(** Modelled from the spec: allocation of a fresh zero-sized output with the
    dtype and layout of [self] ([at::empty({0, 0}, self.options())]). *)
Definition empty_like_options (s : Tensor) : M loc :=
  λ st, let l := fresh (dom st) in
        (Ok l, <[l := mkTensor (layout s) (scalar_type s) [0; 0] [0] [] []]> st).

Definition sparse_sampled_addmm_sparse_csr_cpu
    (self : loc) (mat1 mat2 : Tensor) (beta alpha : R) : M Tensor :=
  s <- read self ;;
  result <- empty_like_options s ;;
  sparse_sampled_addmm_out_sparse_csr_cpu self mat1 mat2 beta alpha result ;;;
  read result.

(** ** The backend addmv kernel, from its contract *)

(** The stored part of row [i] of [mat] times [vec]. *)
Definition row_dot (mat vec : Tensor) (i : nat) : R :=
  foldl (λ acc k, add acc (mul (elem (values mat) k) (elem (values vec) (col_at mat k)))) zero
    (row_entries mat i).

Definition matvec (mat vec : Tensor) : list R :=
  row_dot mat vec <$> seq 0 (nrows mat).

(** Modelled from the spec: the backend kernel [addmv(mat, vec, β, α, out)],
    which leaves β·out + α·(mat @ vec) in [out]; with β = 0 nothing of the
    previous contents of [out] enters the result. *)
Definition addmv_kernel_contract (mat vec : Tensor) (beta alpha : R) (out : Tensor) : Tensor :=
  with_values out
    (if bool_decide (beta = zero) then mul alpha <$> matvec mat vec
     else (λ i, add (mul beta (elem (values out) i)) (mul alpha (row_dot mat vec i)))
            <$> seq 0 (nrows mat)).

End SparseBlas.

(** ** Preconditions, as the code checks them *)

Section Preconditions.
Context {R : Type}.

(** [self] can be broadcast to an [m]-vector. *)
Definition broadcastable (self : Tensor R) (m : Z) : Prop :=
  sizes self = [m] ∨ sizes self = [] ∨ sizes self = [1].

(** The conditions [addmv_out_sparse_csr] itself tests before it touches
    the output: the debug-only assertion (only when it is compiled in), the
    two checks and the broadcast of [self].  They are what this layer
    validates, not a guarantee that the primitives called afterwards accept
    their operands. *)
Definition addmv_accepts (NDEBUG : bool) (self mat vec : Tensor R) : Prop :=
  (NDEBUG = true ∨ layout mat = kSparseCsr) ∧
  dim mat = 2 ∧ dim vec = 1 ∧ broadcastable self (size mat 0).

(** A well-formed CSR matrix: [m + 1] row pointers starting at 0, ending at
    nnz and non-decreasing; as many stored values as column indices; column
    indices within [0, n) and pairwise distinct within a row. *)
Definition csr_wf (t : Tensor R) : bool :=
  bool_decide (length (crow_indices t) = S (nrows t)) &&
  bool_decide (row_start t 0 = 0%nat) &&
  bool_decide (row_start t (nrows t) = length (col_indices t)) &&
  bool_decide (length (values t) = length (col_indices t)) &&
  forallb (λ i, bool_decide (row_start t i ≤ row_start t (S i))%nat) (seq 0 (nrows t)) &&
  forallb (λ k, bool_decide (0 ≤ col_indices t !!! k ∧ (col_at t k < ncols t)%nat))
    (seq 0 (length (col_indices t))) &&
  forallb (λ i, bool_decide (NoDup (col_at t <$> row_entries t i))) (seq 0 (nrows t)).

(** The conditions [sparse_sampled_addmm_out_sparse_csr_cpu] tests on
    [mat1], [mat2] and [result] (lines 114-142): layouts, dtypes, ranks and
    the inner dimensions of the product. *)
Definition sampled_addmm_operands_ok (out_of_range : list Z → nat → Z)
    (self result mat1 mat2 : Tensor R) : Prop :=
  layout mat1 = kStrided ∧ layout mat2 = kStrided ∧ layout result = kSparseCsr ∧
  scalar_type mat1 = scalar_type mat2 ∧ scalar_type mat1 = scalar_type self ∧
  scalar_type result = scalar_type self ∧
  dim mat1 = 2 ∧ dim mat2 = 2 ∧ dim result = 2 ∧
  IntArrayRef_at out_of_range (sizes mat1) 1 = IntArrayRef_at out_of_range (sizes mat2) 0.

(** The two conditions it tests on the shape of [self] (lines 144-148). *)
Definition sampled_addmm_self_shape_ok (out_of_range : list Z → nat → Z)
    (self mat1 mat2 : Tensor R) : Prop :=
  IntArrayRef_at out_of_range (sizes self) 0 = IntArrayRef_at out_of_range (sizes mat1) 0 ∧
  IntArrayRef_at out_of_range (sizes self) 1 = IntArrayRef_at out_of_range (sizes mat2) 1.

(** All the conditions it tests itself before it touches the output.  They
    are what this layer validates, not a guarantee that the primitives called
    afterwards accept their operands. *)
Definition sampled_addmm_accepts (NDEBUG : bool) (out_of_range : list Z → nat → Z)
    (self result mat1 mat2 : Tensor R) : Prop :=
  (NDEBUG = true ∨ layout self = kSparseCsr) ∧
  sampled_addmm_operands_ok out_of_range self result mat1 mat2 ∧
  sampled_addmm_self_shape_ok out_of_range self mat1 mat2.

End Preconditions.

(** ** A concrete instance: integer tensors *)

(** Stale contents for freshly allocated buffers, and a stray value for
    reads past the end of a shape array. *)
Definition stale_buffer (n : nat) : list Z := replicate n 7.
Definition stray_read (a : list Z) (i : nat) : Z := 0.

(** A backend triangular-solve kernel for the unit-triangular system without
    off-diagonal entries: X takes the shape and the elements of B. *)
Definition unit_diagonal_solve (A B X : Tensor Z) (upper transpose unitriangular : bool) : Tensor Z :=
  with_sizes X (sizes B) (values B).

Definition vector (v : list Z) : Tensor Z :=
  mkTensor kStrided kLong [Z.of_nat (length v)] [] [] v.

Definition matrix (m n : Z) (v : list Z) : Tensor Z :=
  mkTensor kStrided kLong [m; n] [] [] v.

Definition csr (m n : Z) (crow col : list Z) (v : list Z) : Tensor Z :=
  mkTensor kSparseCsr kLong [m; n] crow col v.

(** The 3×3 CSR matrix without stored entries. *)
Definition empty3x3 : Tensor Z := csr 3 3 [0; 0; 0; 0] [] [].

(** The 2×2 CSR matrix [[2, 0], [1, 3]]. *)
Definition lower2x2 : Tensor Z := csr 2 2 [0; 1; 3] [0; 0; 1] [2; 1; 3].

(** The 2×2 identity pattern with stored values {1, 1}. *)
Definition eye2x2 : Tensor Z := csr 2 2 [0; 1; 2] [0; 1] [1; 1].


(** A zero-sized CSR output, as the allocating wrapper creates it. *)
Definition empty_csr_out : Tensor Z := csr 0 0 [0] [] [].

Definition store_of (l : list (Tensor Z)) : gmap loc (Tensor Z) :=
  list_to_map (zip (seq 0 (length l)) l).

(** * Properties *)

(** ** Facts about lists laid out in rows and segments *)

Section ListFacts.
Context {A : Type}.

Lemma tabulate_rows_length (m n : nat) (g : nat → nat → A) :
  length (flat_map (λ i, g i <$> seq 0 n) (seq 0 m)) = (m * n)%nat.
Proof.
  induction m as [|m IH]; [done|].
  rewrite seq_S, flat_map_app, length_app, IH. simpl.
  rewrite length_app, length_fmap, length_seq. simpl. lia.
Qed.

Lemma tabulate_rows_lookup (m n : nat) (g : nat → nat → A) i j :
  (i < m)%nat → (j < n)%nat →
  flat_map (λ i, g i <$> seq 0 n) (seq 0 m) !! (i * n + j)%nat = Some (g i j).
Proof.
  induction m as [|m IH]; [lia|]. intros Hi Hj.
  rewrite seq_S, flat_map_app. simpl. rewrite app_nil_r.
  destruct (decide (i = m)) as [->|Hne].
  - rewrite lookup_app_r; rewrite tabulate_rows_length; [|lia].
    replace (m * n + j - m * n)%nat with j by lia.
    rewrite list_lookup_fmap, lookup_seq_lt by done. done.
  - rewrite lookup_app_l; [apply IH; lia|].
    rewrite tabulate_rows_length. nia.
Qed.

(** Consecutive segments [start i .. start (i+1) - 1], laid end to end. *)
Lemma segments_length (start : nat → nat) (g : nat → nat → A) (m : nat) :
  start 0%nat = 0%nat →
  (∀ i, (i < m)%nat → (start i ≤ start (S i))%nat) →
  length (flat_map (λ i, g i <$> seq (start i) (start (S i) - start i)) (seq 0 m)) = start m.
Proof.
  intros H0. induction m as [|m IH]; intros Hmono; [done|].
  rewrite seq_S, flat_map_app, length_app, IH by (intros; apply Hmono; lia).
  simpl. rewrite app_nil_r, length_fmap, length_seq.
  specialize (Hmono m). lia.
Qed.

Lemma segments_lookup (start : nat → nat) (g : nat → nat → A) (m : nat) i k :
  start 0%nat = 0%nat →
  (∀ i, (i < m)%nat → (start i ≤ start (S i))%nat) →
  (i < m)%nat → (start i ≤ k < start (S i))%nat →
  flat_map (λ i, g i <$> seq (start i) (start (S i) - start i)) (seq 0 m) !! k = Some (g i k).
Proof.
  intros H0. induction m as [|m IH]; intros Hmono Hi Hk; [lia|].
  assert (∀ a b, (a ≤ b)%nat → (b ≤ m)%nat → (start a ≤ start b)%nat) as Hle.
  { intros a b Hab Hb. induction Hab as [|b Hab IHb]; [done|].
    etrans; [apply IHb; lia|]. apply Hmono. lia. }
  rewrite seq_S, flat_map_app. simpl. rewrite app_nil_r.
  destruct (decide (i = m)) as [->|Hne].
  - assert (length (flat_map (λ i, g i <$> seq (start i) (start (S i) - start i)) (seq 0 m))
            = start m) as Hlen
      by (apply segments_length; [done | intros; apply Hmono; lia]).
    rewrite lookup_app_r; rewrite Hlen; [|lia].
    rewrite list_lookup_fmap, lookup_seq_lt by lia.
    simpl. do 2 f_equal. lia.
  - rewrite lookup_app_l.
    + apply IH; [intros; apply Hmono; lia | lia | done].
    + rewrite segments_length; [|done|intros; apply Hmono; lia].
      specialize (Hle (S i) m). lia.
Qed.

Lemma find_NoDup_fmap {B} `{EqDecision B} (f : A → B) (l : list A) (x : A) :
  NoDup (f <$> l) → x ∈ l →
  find (λ y, bool_decide (f y = f x)) l = Some x.
Proof.
  induction l as [|y l IH]; intros Hnd Hin; [by apply elem_of_nil in Hin|].
  simpl in *. apply NoDup_cons in Hnd as [Hy Hnd].
  case_bool_decide as Hf.
  - apply elem_of_cons in Hin as [->|Hin]; [done|].
    exfalso. apply Hy. rewrite Hf. by apply list_elem_of_fmap_2.
  - apply elem_of_cons in Hin as [->|Hin]; [done|]. by apply IH.
Qed.

End ListFacts.

(** ** The three operations *)

Section Properties.
Context {R : Type} `{EqDecision R} (zero : R) (add mul : R → R → R).
Context (uninitialized : nat → list R) (out_of_range : list Z → nat → Z).

#[local] Abbreviation addmv := (addmv_out_sparse_csr zero mul uninitialized).
#[local] Abbreviation store := (gmap loc (Tensor R)).
#[local] Abbreviation Tensor := (Tensor R).

Lemma expand_size_store (s : Tensor) m (st : store) r st' :
  expand_size zero s m st = (r, st') → st' = st.
Proof.
  unfold expand_size. repeat case_bool_decide; unfold ret, throw; congruence.
Qed.

Lemma expand_size_ok (s : Tensor) m (st : store) :
  broadcastable s m →
  ∃ s_, expand_size zero s m st = (Ok s_, st) ∧ sizes s_ = [m] ∧
        (sizes s = [m] → s_ = s).
Proof.
  intros Hb. unfold expand_size.
  case_bool_decide as H1.
  - exists s. done.
  - case_bool_decide as H2.
    + eexists. split; [reflexivity|]. split; [done|]. intros; congruence.
    + destruct Hb as [?|Hb]; [done|]. tauto.
Qed.

(** The tensor in the output after lines 41-46. *)
Lemma addmv_prepare_output_run self result (self_ : Tensor) beta (st : store) :
  addmv_prepare_output zero uninitialized self result self_ beta st =
  (Ok tt,
   if decide (result = self) then st
   else <[result :=
          if decide (beta = zero)
          then resize_output uninitialized (st !!! result) (sizes self_)
          else copy_ (resize_output uninitialized (st !!! result) (sizes self_)) self_]> st).
Proof.
  unfold addmv_prepare_output, bind, modify, ret.
  case_bool_decide as Hr; destruct (decide (result = self)); try done.
  case_bool_decide as Hb; destruct (decide (beta = zero)); try done.
  by rewrite lookup_total_insert_eq, insert_insert_eq.
Qed.

Lemma addmv_throw_frame kernel NDEBUG self mat vec beta alpha result (st : store) e st' :
  addmv kernel NDEBUG self mat vec beta alpha result st = (Throw e, st') → st' = st.
Proof.
  unfold addmv_out_sparse_csr, bind, TORCH_INTERNAL_ASSERT_DEBUG_ONLY, TORCH_CHECK, read.
  destruct NDEBUG; [|destruct (is_sparse_csr mat)]; simpl.
  all: repeat (case_bool_decide; simpl); unfold throw; try congruence.
  all: rewrite ?addmv_prepare_output_run.
  all: destruct (expand_size _ _ _ _) as [[s_|e'] st1] eqn:He;
    apply expand_size_store in He; subst st1; rewrite ?addmv_prepare_output_run;
    unfold bind, modify, ret; simpl; congruence.
Qed.

Lemma addmv_run kernel NDEBUG self mat vec beta alpha result (st : store) self_ :
  (NDEBUG = true ∨ layout mat = kSparseCsr) → dim mat = 2 → dim vec = 1 →
  expand_size zero (st !!! self) (size mat 0) st = (Ok self_, st) →
  let prepared :=
    if decide (result = self) then st !!! self
    else if decide (beta = zero)
         then resize_output uninitialized (st !!! result) (sizes self_)
         else copy_ (resize_output uninitialized (st !!! result) (sizes self_)) self_ in
  addmv kernel NDEBUG self mat vec beta alpha result st =
  (Ok result,
   <[result :=
      if decide (_nnz mat = 0) then
        if decide (beta = zero) then zero_ zero prepared
        else mul_out zero mul prepared (st !!! self)
               (scalar_tensor beta (scalar_type (st !!! self)))
      else kernel mat vec beta alpha prepared]> st).
Proof.
  intros Hcsr Hm Hv He prepared.
  assert (TORCH_INTERNAL_ASSERT_DEBUG_ONLY NDEBUG (is_sparse_csr mat) "mat.is_sparse_csr()" st
          = (Ok tt, st)) as Ha.
  { unfold TORCH_INTERNAL_ASSERT_DEBUG_ONLY, is_sparse_csr.
    destruct Hcsr as [->| ->]; [done|]. rewrite bool_decide_eq_true_2 by done.
    by destruct NDEBUG. }
  unfold addmv_out_sparse_csr, bind. rewrite Ha.
  unfold TORCH_CHECK. rewrite !bool_decide_eq_true_2 by done. unfold ret at 1 2.
  unfold read at 1. rewrite He, addmv_prepare_output_run.
  assert ((if decide (result = self) then st else
           <[result := if decide (beta = zero)
          then resize_output uninitialized (st !!! result) (sizes self_)
          else copy_ (resize_output uninitialized (st !!! result) (sizes self_)) self_]> st)
          !!! result = prepared) as Hp.
  { subst prepared. destruct (decide (result = self)) as [->|]; [done|].
    by rewrite lookup_total_insert_eq. }
  assert (∀ t, <[result := t]> (if decide (result = self) then st else
           <[result := if decide (beta = zero)
          then resize_output uninitialized (st !!! result) (sizes self_)
          else copy_ (resize_output uninitialized (st !!! result) (sizes self_)) self_]> st)
          = <[result := t]> st) as Hi.
  { intros t. destruct (decide (result = self)); [done|]. by rewrite insert_insert_eq. }
  assert ((if decide (result = self) then st else
           <[result := if decide (beta = zero)
          then resize_output uninitialized (st !!! result) (sizes self_)
          else copy_ (resize_output uninitialized (st !!! result) (sizes self_)) self_]> st)
          !!! self = st !!! self) as Hs.
  { destruct (decide (result = self)); [done|]. by rewrite lookup_total_insert_ne. }
  case_bool_decide; destruct (decide (_nnz mat = 0)); try done.
  - case_bool_decide; destruct (decide (beta = zero)); try done.
    + unfold modify, ret. by rewrite Hp, Hi.
    + unfold read, modify, ret. by rewrite Hp, Hi, Hs.
  - unfold modify, ret. by rewrite Hp, Hi.
Qed.

#[local] Abbreviation sampled_addmm :=
  (sparse_sampled_addmm_out_sparse_csr_cpu zero add mul uninitialized).

Lemma TORCH_CHECK_pass (c : bool) msg (st : store) :
  c = true → TORCH_CHECK (R:=R) c msg st = (Ok tt, st).
Proof. by intros ->. Qed.

Lemma TORCH_CHECK_fail (c : bool) msg (st : store) :
  c = false → TORCH_CHECK (R:=R) c msg st = (Throw (CheckFailure msg), st).
Proof. by intros ->. Qed.

Lemma sampled_addmm_throw_frame NDEBUG self mat1 mat2 beta alpha result (st : store) e st' :
  sampled_addmm NDEBUG out_of_range self mat1 mat2 beta alpha result st = (Throw e, st') →
  st' = st.
Proof.
  unfold sparse_sampled_addmm_out_sparse_csr_cpu, bind, TORCH_INTERNAL_ASSERT_DEBUG_ONLY,
    TORCH_CHECK, read, modify, ret, throw.
  destruct NDEBUG; [|destruct (is_sparse_csr _)]; simpl.
  all: repeat (case_bool_decide; simpl; try congruence).
  all: congruence.
Qed.

Lemma sampled_addmm_run NDEBUG self mat1 mat2 beta alpha result (st : store) :
  sampled_addmm_accepts NDEBUG out_of_range (st !!! self) (st !!! result) mat1 mat2 →
  sampled_addmm NDEBUG out_of_range self mat1 mat2 beta alpha result st =
  (Ok result,
   <[result :=
      copy_ (if decide (result = self) then st !!! self
             else resize_as_sparse_csr_ uninitialized (st !!! result) (st !!! self))
        (sparse_mask zero
           (addmm zero add mul (to_dense zero (st !!! self)) mat1 mat2 beta alpha)
           (st !!! self))]> st).
Proof.
  intros (Hcsr & (H1 & H2 & H3 & H4 & H5 & H6 & H7 & H8 & H9 & H10) & H11 & H12).
  unfold sparse_sampled_addmm_out_sparse_csr_cpu, bind, read. simpl.
  assert (TORCH_INTERNAL_ASSERT_DEBUG_ONLY NDEBUG (is_sparse_csr (st !!! self))
            "self.is_sparse_csr()" st = (Ok tt, st)) as ->.
  { unfold TORCH_INTERNAL_ASSERT_DEBUG_ONLY, is_sparse_csr.
    destruct Hcsr as [->|Hl]; [done|]. rewrite bool_decide_eq_true_2 by done.
    by destruct NDEBUG. }
  rewrite !TORCH_CHECK_pass by (by apply bool_decide_eq_true_2).
  case_bool_decide as Hr; destruct (decide (result = self)) as [->|Hne]; try done.
  - unfold modify, ret. simpl.
    by rewrite lookup_total_insert_eq, lookup_total_insert_ne, insert_insert_eq.
Qed.

Lemma sampled_addmm_rejects NDEBUG self mat1 mat2 beta alpha result (st : store) :
  (NDEBUG = true ∨ layout (st !!! self) = kSparseCsr) →
  ¬ (sampled_addmm_operands_ok out_of_range (st !!! self) (st !!! result) mat1 mat2 ∧
     sampled_addmm_self_shape_ok out_of_range (st !!! self) mat1 mat2) →
  ∃ msg,
    sampled_addmm NDEBUG out_of_range self mat1 mat2 beta alpha result st =
      (Throw (CheckFailure msg), st) ∧
    String.prefix "sampled_addmm: " msg = true.
Proof.
  intros Hcsr Hbad.
  unfold sparse_sampled_addmm_out_sparse_csr_cpu, bind, read. simpl.
  assert (TORCH_INTERNAL_ASSERT_DEBUG_ONLY NDEBUG (is_sparse_csr (st !!! self))
            "self.is_sparse_csr()" st = (Ok tt, st)) as ->.
  { unfold TORCH_INTERNAL_ASSERT_DEBUG_ONLY, is_sparse_csr.
    destruct Hcsr as [->|Hl]; [done|]. rewrite bool_decide_eq_true_2 by done.
    by destruct NDEBUG. }
  unfold TORCH_CHECK, ret, throw.
  repeat (case_bool_decide; simpl; [|eexists; split; [reflexivity|reflexivity]]).
  exfalso. apply Hbad. unfold sampled_addmm_operands_ok, sampled_addmm_self_shape_ok. tauto.
Qed.

(** *** Facts about well-formed CSR matrices and the dense primitives *)

Lemma IntArrayRef_at_in_range (a : list Z) (i : nat) :
  (i < length a)%nat → IntArrayRef_at out_of_range a i = a !!! i.
Proof.
  intros Hi. unfold IntArrayRef_at.
  destruct (lookup_lt_is_Some_2 a i Hi) as [x Hx].
  by rewrite (list_lookup_total_correct _ _ _ Hx), Hx.
Qed.

Lemma csr_wf_rows (t : Tensor) :
  csr_wf t = true →
  row_start t 0 = 0%nat ∧
  (∀ i, (i < nrows t)%nat → (row_start t i ≤ row_start t (S i))%nat) ∧
  row_start t (nrows t) = length (col_indices t) ∧
  length (values t) = length (col_indices t).
Proof.
  unfold csr_wf. rewrite !andb_true_iff, !bool_decide_eq_true, !forallb_forall.
  intros [[[[[[? ?] ?] ?] Hm] ?] ?]. repeat split; try done.
  intros i Hi. specialize (Hm i). rewrite bool_decide_eq_true in Hm.
  apply Hm, in_seq. lia.
Qed.

Lemma csr_wf_cols (t : Tensor) k :
  csr_wf t = true → (k < length (col_indices t))%nat → (col_at t k < ncols t)%nat.
Proof.
  unfold csr_wf. rewrite !andb_true_iff, !forallb_forall.
  intros [[_ Hc] _] Hk. specialize (Hc k). rewrite bool_decide_eq_true in Hc.
  apply Hc, in_seq. lia.
Qed.

Lemma csr_wf_distinct (t : Tensor) i :
  csr_wf t = true → (i < nrows t)%nat → NoDup (col_at t <$> row_entries t i).
Proof.
  unfold csr_wf. rewrite !andb_true_iff, !forallb_forall.
  intros [_ Hd] Hi. specialize (Hd i). rewrite bool_decide_eq_true in Hd.
  apply Hd, in_seq. lia.
Qed.

Lemma row_start_mono (t : Tensor) a b :
  csr_wf t = true → (a ≤ b)%nat → (b ≤ nrows t)%nat → (row_start t a ≤ row_start t b)%nat.
Proof.
  intros Hwf Hab Hb. destruct (csr_wf_rows t Hwf) as (_ & Hm & _).
  induction Hab as [|b Hab IH]; [done|].
  etrans; [apply IH; lia|]. apply Hm. lia.
Qed.

Lemma row_entry_stored (t : Tensor) i k :
  csr_wf t = true → (i < nrows t)%nat →
  (row_start t i ≤ k < row_start t (S i))%nat →
  (k < length (col_indices t))%nat.
Proof.
  intros Hwf Hi Hk. destruct (csr_wf_rows t Hwf) as (_ & _ & Hn & _).
  pose proof (row_start_mono t (S i) (nrows t) Hwf). lia.
Qed.

(** Reading a stored coordinate of a well-formed CSR matrix yields the value
    stored for it. *)
Lemma csr_get_stored (t : Tensor) i k :
  csr_wf t = true → (i < nrows t)%nat →
  (row_start t i ≤ k < row_start t (S i))%nat →
  csr_get zero t i (col_at t k) = elem zero (values t) k.
Proof.
  intros Hwf Hi Hk. unfold csr_get.
  rewrite (find_NoDup_fmap (col_at t) (row_entries t i) k); [done| |].
  - by apply csr_wf_distinct.
  - unfold row_entries. apply elem_of_seq. lia.
Qed.

Lemma elem_tabulate2 (m n : nat) (f : nat → nat → R) i j :
  (i < m)%nat → (j < n)%nat → elem zero (tabulate2 m n f) (i * n + j) = f i j.
Proof.
  intros Hi Hj. unfold elem, tabulate2. by rewrite tabulate_rows_lookup.
Qed.

Lemma get2_to_dense (t : Tensor) i j :
  (i < nrows t)%nat → (j < ncols t)%nat →
  get2 zero (to_dense zero t) i j = csr_get zero t i j.
Proof. intros Hi Hj. unfold get2, to_dense. simpl. by apply elem_tabulate2. Qed.

Lemma get2_addmm (inp mat1 mat2 : Tensor) beta alpha i j :
  (i < nrows mat1)%nat → (j < ncols mat2)%nat →
  get2 zero (addmm zero add mul inp mat1 mat2 beta alpha) i j =
  add (mul alpha (matmul_entry zero add mul mat1 mat2 i j)) (mul beta (get2 zero inp i j)).
Proof.
  intros Hi Hj. unfold get2 at 1, addmm. simpl.
  change (Z.to_nat (size mat2 1)) with (ncols mat2).
  by rewrite elem_tabulate2.
Qed.

(** The values of the masked dense accumulation, entry by entry. *)
Lemma sampled_values_lookup (s mat1 mat2 : Tensor) beta alpha i k :
  csr_wf s = true → nrows mat1 = nrows s → ncols mat2 = ncols s →
  (i < nrows s)%nat → (row_start s i ≤ k < row_start s (S i))%nat →
  values (sparse_mask zero (addmm zero add mul (to_dense zero s) mat1 mat2 beta alpha) s) !! k =
  Some (add (mul alpha (matmul_entry zero add mul mat1 mat2 i (col_at s k)))
            (mul beta (elem zero (values s) k))).
Proof.
  intros Hwf Hm Hn Hi Hk. destruct (csr_wf_rows s Hwf) as (H0 & Hmono & _).
  assert (col_at s k < ncols s)%nat as Hc
    by (eapply csr_wf_cols, row_entry_stored; eauto).
  unfold sparse_mask, row_entries. simpl.
  rewrite (segments_lookup (row_start s) _ (nrows s) i k) by done.
  rewrite get2_addmm by lia.
  by rewrite get2_to_dense, csr_get_stored.
Qed.

Lemma sampled_values_length (s d : Tensor) :
  csr_wf s = true →
  length (values (sparse_mask zero d s)) = length (col_indices s).
Proof.
  intros Hwf. destruct (csr_wf_rows s Hwf) as (H0 & Hmono & Hn & _).
  unfold sparse_mask, row_entries. simpl.
  by rewrite (segments_length (row_start s) _ (nrows s)).
Qed.

(** *** Facts about the buffer primitives *)

Lemma resize_output_sizes (t : Tensor) s : sizes (resize_output uninitialized t s) = s.
Proof. unfold resize_output. by case_bool_decide. Qed.

Lemma resize_output_same (t : Tensor) : resize_output uninitialized t (sizes t) = t.
Proof. unfold resize_output. by rewrite bool_decide_eq_true_2. Qed.

Lemma copy_same (t : Tensor) : copy_ t t = t.
Proof. by destruct t. Qed.

Lemma numel_vector (t : Tensor) m : sizes t = [m] → numel t = Z.to_nat m.
Proof. unfold numel. intros ->. simpl. f_equal. lia. Qed.

Lemma expand_size_inv (s : Tensor) m (st : store) s_ st' :
  expand_size zero s m st = (Ok s_, st') → broadcastable s m.
Proof.
  unfold expand_size, broadcastable. repeat case_bool_decide; unfold throw; try done; tauto.
Qed.

Lemma addmv_ok_accepts kernel NDEBUG self mat vec beta alpha result (st : store) r st' :
  addmv kernel NDEBUG self mat vec beta alpha result st = (Ok r, st') →
  addmv_accepts NDEBUG (st !!! self) mat vec.
Proof.
  unfold addmv_out_sparse_csr, bind, TORCH_INTERNAL_ASSERT_DEBUG_ONLY, TORCH_CHECK, read,
    addmv_accepts, is_sparse_csr.
  destruct NDEBUG; [|case_bool_decide]; simpl; unfold throw; try congruence.
  all: do 2 (case_bool_decide; simpl; try congruence).
  all: destruct (expand_size _ _ _ _) as [[s_|e'] st1] eqn:He; [|congruence].
  all: apply expand_size_inv in He; intros _; auto.
Qed.

Lemma addmv_throw_any_output kernel NDEBUG self mat vec beta alpha result result'
    (st : store) e st' :
  addmv kernel NDEBUG self mat vec beta alpha result st = (Throw e, st') →
  addmv kernel NDEBUG self mat vec beta alpha result' st = (Throw e, st').
Proof.
  unfold addmv_out_sparse_csr, bind, TORCH_INTERNAL_ASSERT_DEBUG_ONLY, TORCH_CHECK, read.
  destruct NDEBUG; [|destruct (is_sparse_csr mat)]; simpl; try done.
  all: do 2 (case_bool_decide; simpl; try done).
  all: destruct (expand_size _ _ _ _) as [[s_|e'] st1] eqn:He; [|done].
  all: rewrite addmv_prepare_output_run.
  all: repeat case_bool_decide; unfold bind, read, modify, ret; simpl; congruence.
Qed.

(** Without stored entries every row of [mat] has an empty product with
    [vec]. *)
Lemma matvec_empty (mat vec : Tensor) :
  csr_wf mat = true → _nnz mat = 0 →
  matvec zero add mul mat vec = replicate (nrows mat) zero.
Proof.
  intros Hwf Hnnz. destruct (csr_wf_rows mat Hwf) as (_ & _ & Hn & _).
  assert (length (col_indices mat) = 0%nat) as Hl by (unfold _nnz in Hnnz; lia).
  unfold matvec.
  assert (∀ i, (i < nrows mat)%nat → row_dot zero add mul mat vec i = zero) as Hrow.
  { intros i Hi. unfold row_dot, row_entries.
    pose proof (row_start_mono mat (S i) (nrows mat) Hwf).
    replace (row_start mat (S i) - row_start mat i)%nat with 0%nat by lia. done. }
  apply list_eq. intros i. rewrite list_lookup_fmap.
  destruct (decide (i < nrows mat)%nat) as [Hi|Hi].
  - rewrite lookup_seq_lt by done. simpl. rewrite Hrow by done.
    symmetry. by apply lookup_replicate_2.
  - rewrite lookup_seq_ge by lia. simpl. symmetry. apply lookup_replicate_None. lia.
Qed.

(** ** addmv *)


(** Output preparation and the case β = 0.  Lines 41-46: an output distinct
    from [self] takes the
    broadcast shape of [self]; the elements of [self] are copied into it when
    β ≠ 0, and when β = 0 it is only resized.  With β = 0, the backend kernel
    honouring its contract, a well-formed [mat] and α·0 = 0, every accepted
    call whose output is distinct from [self], or whose [self] already has
    shape (m,), leaves exactly α·(mat @ vec) in the output. *)
Theorem addmv_beta_zero_ignores_self NDEBUG self mat vec alpha result (st : store) :
  (∀ self_ beta, result ≠ self →
     ∃ st1,
       addmv_prepare_output zero uninitialized self result self_ beta st = (Ok tt, st1) ∧
       sizes (st1 !!! result) = sizes self_ ∧
       (beta ≠ zero → values (st1 !!! result) = values self_) ∧
       (beta = zero →
          st1 !!! result = resize_output uninitialized (st !!! result) (sizes self_)) ∧
       (∀ l, l ≠ result → st1 !! l = st !! l)) ∧
  (addmv_accepts NDEBUG (st !!! self) mat vec →
   csr_wf mat = true →
   mul alpha zero = zero →
   result ≠ self ∨ sizes (st !!! self) = [size mat 0] →
   ∃ st',
     addmv (addmv_kernel_contract zero add mul) NDEBUG self mat vec zero alpha result st =
       (Ok result, st') ∧
     values (st' !!! result) = mul alpha <$> matvec zero add mul mat vec ∧
     sizes (st' !!! result) = [size mat 0]).
Proof.
  split.
  - intros self_ beta Hne. rewrite addmv_prepare_output_run, decide_False by done.
    eexists. split; [reflexivity|]. rewrite lookup_total_insert_eq.
    repeat split.
    + destruct (decide (beta = zero)); simpl; by rewrite resize_output_sizes.
    + intros Hb. by rewrite decide_False.
    + intros Hb. by rewrite decide_True.
    + intros l Hl. by rewrite lookup_insert_ne.
  - intros (Hcsr & Hm & Hv & Hb) Hwf Hmul Hshape.
    destruct (expand_size_ok (st !!! self) (size mat 0) st Hb) as (s_ & He & Hs_ & _).
    eexists. split.
    { by apply (addmv_run _ NDEBUG self mat vec zero alpha result st s_). }
    rewrite lookup_total_insert_eq. simpl.
    assert (sizes (if decide (result = self) then st !!! self
                   else if decide (zero = zero)
                        then resize_output uninitialized (st !!! result) (sizes s_)
                        else copy_ (resize_output uninitialized (st !!! result) (sizes s_)) s_)
            = [size mat 0]) as Hsz.
    { destruct (decide (result = self)) as [Heq|Hne].
      - by destruct Hshape.
      - rewrite decide_True by done. by rewrite resize_output_sizes. }
    destruct (decide (_nnz mat = 0)) as [Hnnz|Hnnz].
    + rewrite decide_True by done. simpl. split; [|done].
      rewrite (numel_vector _ _ Hsz), matvec_empty by done.
      rewrite fmap_replicate, Hmul. done.
    + unfold addmv_kernel_contract. simpl. rewrite bool_decide_eq_true_2 by done. done.
Qed.

(** Aliasing without broadcast.  When [self] already has the output shape
    (m,), passing
    [self] itself as the output gives the same outcome as passing a distinct
    buffer with the same initial contents: the same failure, or the same
    tensor in the output. *)
Theorem addmv_alias_safe_same_shape kernel NDEBUG self out mat vec beta alpha (st : store) :
  out ≠ self →
  st !!! out = st !!! self →
  sizes (st !!! self) = [size mat 0] →
  (∃ e, addmv kernel NDEBUG self mat vec beta alpha self st = (Throw e, st) ∧
        addmv kernel NDEBUG self mat vec beta alpha out st = (Throw e, st)) ∨
  (∃ t, addmv kernel NDEBUG self mat vec beta alpha self st = (Ok self, <[self := t]> st) ∧
        addmv kernel NDEBUG self mat vec beta alpha out st = (Ok out, <[out := t]> st)).
Proof.
  intros Hne Hsame Hshape.
  destruct (addmv kernel NDEBUG self mat vec beta alpha self st) as [[r|e] st1] eqn:Erun.
  - right. apply addmv_ok_accepts in Erun as Hacc. destruct Hacc as (Hcsr & Hm & Hv & Hb).
    destruct (expand_size_ok (st !!! self) (size mat 0) st Hb) as (s_ & He & _ & Hs_).
    specialize (Hs_ Hshape). subst s_.
    rewrite (addmv_run kernel NDEBUG self mat vec beta alpha self st (st !!! self)) in Erun
      by done.
    rewrite (addmv_run kernel NDEBUG self mat vec beta alpha out st (st !!! self)) by done.
    rewrite (decide_True (P := self = self)) in Erun by done.
    rewrite (decide_False (P := out = self)) by done.
    rewrite Hsame, resize_output_same, copy_same.
    eexists. split; [|reflexivity].
    rewrite <- Erun. by destruct (decide (beta = zero)).
  - left. exists e. pose proof (addmv_throw_frame _ _ _ _ _ _ _ _ _ _ _ Erun) as ->.
    split; [done|]. by apply (addmv_throw_any_output _ _ _ _ _ _ _ self).
Qed.




(** ** Triangular solve *)

(** C9. The call returns the pair of the two buffers it was handed; the only
    change to the store is the backend kernel's rewrite of [X], so every
    other tensor, [clone_A] among them, is as it was. *)
Theorem triangular_solve_returns_buffers
    (kernel : Tensor → Tensor → Tensor → bool → bool → bool → Tensor)
    (B A : Tensor) (upper transpose unitriangular : bool) (X clone_A : loc) (st : store) :
  triangular_solve_out_sparse_csr_cpu kernel B A upper transpose unitriangular X clone_A st =
    (Ok (X, clone_A), <[X := kernel A B (st !!! X) upper transpose unitriangular]> st) ∧
  (clone_A ≠ X →
     <[X := kernel A B (st !!! X) upper transpose unitriangular]> st !! clone_A =
     st !! clone_A) ∧
  (∀ l, l ≠ X →
     <[X := kernel A B (st !!! X) upper transpose unitriangular]> st !! l = st !! l).
Proof.
  split; [reflexivity|]. split.
  - intros Hne. by rewrite lookup_insert_ne.
  - intros l Hne. by rewrite lookup_insert_ne.
Qed.

(** ** Sampled addmm *)

(** The stored values of an accepted call on a well-formed rank-2 [self]. *)
Lemma sampled_addmm_stored_values NDEBUG self mat1 mat2 beta alpha result (st : store) :
  sampled_addmm_accepts NDEBUG out_of_range (st !!! self) (st !!! result) mat1 mat2 →
  dim (st !!! self) = 2 →
  csr_wf (st !!! self) = true →
  ∃ st',
    sampled_addmm NDEBUG out_of_range self mat1 mat2 beta alpha result st = (Ok result, st') ∧
    sizes (st' !!! result) = sizes (st !!! self) ∧
    crow_indices (st' !!! result) = crow_indices (st !!! self) ∧
    col_indices (st' !!! result) = col_indices (st !!! self) ∧
    length (values (st' !!! result)) = length (col_indices (st !!! self)) ∧
    ∀ i k, (i < nrows (st !!! self))%nat →
      (row_start (st !!! self) i ≤ k < row_start (st !!! self) (S i))%nat →
      values (st' !!! result) !! k =
      Some (add (mul alpha (matmul_entry zero add mul mat1 mat2 i (col_at (st !!! self) k)))
                (mul beta (elem zero (values (st !!! self)) k))).
Proof.
  intros Hacc Hdim Hwf.
  pose proof Hacc as (_ & (_ & _ & _ & _ & _ & _ & Hd1 & Hd2 & _) & Hs0 & Hs1).
  unfold dim in Hdim, Hd1, Hd2.
  rewrite !IntArrayRef_at_in_range in Hs0, Hs1 by lia.
  assert (nrows mat1 = nrows (st !!! self)) as Hrows by (unfold nrows, size; by rewrite Hs0).
  assert (ncols mat2 = ncols (st !!! self)) as Hcols by (unfold ncols, size; by rewrite Hs1).
  eexists. split; [by apply sampled_addmm_run|].
  rewrite lookup_total_insert_eq.
  split; [by destruct (decide (result = self))|].
  split; [by destruct (decide (result = self))|].
  split; [by destruct (decide (result = self))|].
  split.
  - unfold copy_, with_values. simpl. by apply sampled_values_length.
  - intros i k Hi Hk. unfold copy_, with_values. simpl. by apply sampled_values_lookup.
Qed.

(** C4. An accepted call leaves in the output exactly the row pointers and
    column indices of [self]; an output distinct from [self] is first given
    the shape and the index arrays of [self] and then receives the values,
    and [self] itself is left as it was. *)
Theorem sampled_addmm_keeps_pattern NDEBUG self mat1 mat2 beta alpha result (st : store) :
  sampled_addmm_accepts NDEBUG out_of_range (st !!! self) (st !!! result) mat1 mat2 →
  ∃ st',
    sampled_addmm NDEBUG out_of_range self mat1 mat2 beta alpha result st = (Ok result, st') ∧
    crow_indices (st' !!! result) = crow_indices (st !!! self) ∧
    col_indices (st' !!! result) = col_indices (st !!! self) ∧
    (result ≠ self →
       st' !!! result =
         copy_ (resize_as_sparse_csr_ uninitialized (st !!! result) (st !!! self))
           (sparse_mask zero
              (addmm zero add mul (to_dense zero (st !!! self)) mat1 mat2 beta alpha)
              (st !!! self)) ∧
       sizes (st' !!! result) = sizes (st !!! self) ∧
       st' !!! self = st !!! self).
Proof.
  intros Hacc. eexists. split; [by apply sampled_addmm_run|].
  rewrite lookup_total_insert_eq.
  split; [by destruct (decide (result = self))|].
  split; [by destruct (decide (result = self))|].
  intros Hne. rewrite decide_False by done.
  rewrite lookup_total_insert_ne by done. done.
Qed.

(** C6. Whenever one of the listed conditions is violated (and the debug
    assertion on [self] does not fire first), the call fails with a
    validation error, active in every build, whose message names the
    operation; the store is untouched. *)
Theorem sampled_addmm_rejects_invalid_operands NDEBUG self mat1 mat2 beta alpha result
    (st : store) :
  NDEBUG = true ∨ layout (st !!! self) = kSparseCsr →
  scalar_type mat1 ≠ scalar_type mat2 ∨
  scalar_type mat1 ≠ scalar_type (st !!! self) ∨
  scalar_type (st !!! result) ≠ scalar_type (st !!! self) ∨
  layout mat1 ≠ kStrided ∨
  layout mat2 ≠ kStrided ∨
  layout (st !!! result) ≠ kSparseCsr ∨
  dim mat1 ≠ 2 ∨
  dim mat2 ≠ 2 ∨
  dim (st !!! result) ≠ 2 ∨
  IntArrayRef_at out_of_range (sizes mat1) 1 ≠ IntArrayRef_at out_of_range (sizes mat2) 0 ∨
  IntArrayRef_at out_of_range (sizes (st !!! self)) 0 ≠
    IntArrayRef_at out_of_range (sizes mat1) 0 ∨
  IntArrayRef_at out_of_range (sizes (st !!! self)) 1 ≠
    IntArrayRef_at out_of_range (sizes mat2) 1 →
  ∃ msg,
    sampled_addmm NDEBUG out_of_range self mat1 mat2 beta alpha result st =
      (Throw (CheckFailure msg), st) ∧
    String.prefix "sampled_addmm: " msg = true.
Proof.
  intros Hcsr Hbad. apply sampled_addmm_rejects; [done|].
  unfold sampled_addmm_operands_ok, sampled_addmm_self_shape_ok.
  intros [(? & ? & ? & ? & ? & ? & ? & ? & ? & ?) [? ?]].
  repeat (destruct Hbad as [Hbad|Hbad]; [done|]). done.
Qed.

(** C7. A call of [addmv] or of sampled addmm that fails, fails before
    anything is written: the store, and with it the output buffer, is the one
    the call started from. *)
Theorem failed_validation_leaves_output_untouched kernel NDEBUG self result beta alpha
    (st : store) :
  (∀ mat vec e st',
     addmv_out_sparse_csr zero mul uninitialized kernel NDEBUG
       self mat vec beta alpha result st = (Throw e, st') →
     st' = st) ∧
  (∀ mat1 mat2 e st',
     sparse_sampled_addmm_out_sparse_csr_cpu zero add mul uninitialized NDEBUG out_of_range
       self mat1 mat2 beta alpha result st = (Throw e, st') →
     st' = st).
Proof.
  split.
  - intros mat vec e st'. apply addmv_throw_frame.
  - intros mat1 mat2 e st'. apply sampled_addmm_throw_frame.
Qed.

(** C10. Neither the layout nor the rank of [self] is validated.  In a
    release build, with operands [mat1], [mat2] and [result] that pass their
    checks and a [self] of rank other than 2, the outcome depends only on the
    two reads of [self]'s shape: one of the two dimension-match failures, or
    acceptance.  For ranks 0 and 1 the second read is past the end of the
    shape, and for rank 0 the first one as well.  The layout of [self] is tested by the debug build alone, as an
    internal assertion. *)
Theorem sampled_addmm_self_rank_unvalidated self mat1 mat2 beta alpha result (st : store) :
  sampled_addmm_operands_ok out_of_range (st !!! self) (st !!! result) mat1 mat2 →
  dim (st !!! self) ≠ 2 →
  (IntArrayRef_at out_of_range (sizes (st !!! self)) 0 ≠
     IntArrayRef_at out_of_range (sizes mat1) 0 →
   sampled_addmm true out_of_range self mat1 mat2 beta alpha result st =
     (Throw (CheckFailure "sampled_addmm: self dim 0 must match mat1 dim 0"), st)) ∧
  (IntArrayRef_at out_of_range (sizes (st !!! self)) 0 =
     IntArrayRef_at out_of_range (sizes mat1) 0 →
   IntArrayRef_at out_of_range (sizes (st !!! self)) 1 ≠
     IntArrayRef_at out_of_range (sizes mat2) 1 →
   sampled_addmm true out_of_range self mat1 mat2 beta alpha result st =
     (Throw (CheckFailure "sampled_addmm: self dim 1 must match mat2 dim 1"), st)) ∧
  (IntArrayRef_at out_of_range (sizes (st !!! self)) 0 =
     IntArrayRef_at out_of_range (sizes mat1) 0 →
   IntArrayRef_at out_of_range (sizes (st !!! self)) 1 =
     IntArrayRef_at out_of_range (sizes mat2) 1 →
   ∃ st', sampled_addmm true out_of_range self mat1 mat2 beta alpha result st =
            (Ok result, st')) ∧
  ((length (sizes (st !!! self)) ≤ 1)%nat →
   IntArrayRef_at out_of_range (sizes (st !!! self)) 1 =
     out_of_range (sizes (st !!! self)) 1) ∧
  (sizes (st !!! self) = [] →
   IntArrayRef_at out_of_range (sizes (st !!! self)) 0 =
     out_of_range (sizes (st !!! self)) 0) ∧
  (layout (st !!! self) ≠ kSparseCsr →
   sampled_addmm false out_of_range self mat1 mat2 beta alpha result st =
     (Throw (InternalAssertFailure "self.is_sparse_csr()"), st)).
Proof.
  intros Hok Hrank. pose proof Hok as (H1 & H2 & H3 & H4 & H5 & H6 & H7 & H8 & H9 & H10).
  split; [|split; [|split; [|split; [|split]]]].
  - intros Hd0.
    unfold sparse_sampled_addmm_out_sparse_csr_cpu, bind, read,
      TORCH_INTERNAL_ASSERT_DEBUG_ONLY. simpl.
    rewrite !TORCH_CHECK_pass by (by apply bool_decide_eq_true_2).
    by rewrite TORCH_CHECK_fail by (by apply bool_decide_eq_false_2).
  - intros Hd0 Hd1.
    unfold sparse_sampled_addmm_out_sparse_csr_cpu, bind, read,
      TORCH_INTERNAL_ASSERT_DEBUG_ONLY. simpl.
    rewrite !TORCH_CHECK_pass by (by apply bool_decide_eq_true_2).
    by rewrite TORCH_CHECK_fail by (by apply bool_decide_eq_false_2).
  - intros Hd0 Hd1. eexists. apply sampled_addmm_run.
    split; [by left|]. by split.
  - intros Hlen. unfold IntArrayRef_at. by rewrite lookup_ge_None_2.
  - intros Hnil. unfold IntArrayRef_at. by rewrite Hnil.
  - intros Hl.
    unfold sparse_sampled_addmm_out_sparse_csr_cpu, bind, read,
      TORCH_INTERNAL_ASSERT_DEBUG_ONLY, is_sparse_csr. simpl.
    by rewrite bool_decide_eq_false_2.
Qed.

(** * Further properties of the three operations *)

(** ** addmv: acceptance, failures and frame *)

Lemma expand_size_value (s : Tensor) m (st : store) :
  broadcastable s m →
  expand_size zero s m st =
  (Ok (if decide (sizes s = [m]) then s
       else with_sizes s [m] (replicate (Z.to_nat m) (item zero s))), st).
Proof.
  intros Hb. unfold expand_size.
  case_bool_decide as H1; destruct (decide (sizes s = [m])); try done.
  case_bool_decide as H2; [done|]. destruct Hb as [?|?]; [done|tauto].
Qed.

Lemma expand_size_rejects (s : Tensor) m (st : store) :
  ¬ broadcastable s m →
  ∃ msg, expand_size zero s m st = (Throw (CheckFailure msg), st).
Proof.
  intros Hb. unfold expand_size, broadcastable in *.
  repeat case_bool_decide; try tauto. eexists; reflexivity.
Qed.

(** X1. A call of [addmv] that returns has passed the assertion (if compiled
    in), the two rank checks and the broadcast of [self], and it returns the
    reference to the output it was handed. *)
Theorem addmv_success_implies_accepted kernel NDEBUG self mat vec beta alpha result
    (st : store) r st' :
  addmv_out_sparse_csr zero mul uninitialized kernel NDEBUG
    self mat vec beta alpha result st = (Ok r, st') →
  addmv_accepts NDEBUG (st !!! self) mat vec ∧ r = result.
Proof.
  intros Hrun. pose proof Hrun as Hacc. apply addmv_ok_accepts in Hacc.
  split; [done|]. destruct Hacc as (Hcsr & Hm & Hv & Hb).
  destruct (expand_size_ok (st !!! self) (size mat 0) st Hb) as (s_ & He & _).
  rewrite (addmv_run kernel NDEBUG self mat vec beta alpha result st s_) in Hrun by done.
  congruence.
Qed.

(** X2. The order of the failures of [addmv]: with a 2-D [mat] (and the
    assertion passing), a [vec] that is not 1-D is rejected with its own
    message whatever [self] is; only then is [self] broadcast, and a [self]
    that cannot be broadcast to length m is rejected too.  Both leave the
    store as it was. *)
Theorem addmv_vec_then_broadcast_checked kernel NDEBUG self mat vec beta alpha result
    (st : store) :
  NDEBUG = true ∨ layout mat = kSparseCsr →
  dim mat = 2 →
  (dim vec ≠ 1 →
     addmv_out_sparse_csr zero mul uninitialized kernel NDEBUG
       self mat vec beta alpha result st =
     (Throw (CheckFailure "addmv: Expected vec to be 1-D"), st)) ∧
  (dim vec = 1 → ¬ broadcastable (st !!! self) (size mat 0) →
     ∃ msg, addmv_out_sparse_csr zero mul uninitialized kernel NDEBUG
              self mat vec beta alpha result st = (Throw (CheckFailure msg), st)).
Proof.
  intros Hcsr Hm.
  assert (TORCH_INTERNAL_ASSERT_DEBUG_ONLY (R:=R) NDEBUG (is_sparse_csr mat)
            "mat.is_sparse_csr()" st = (Ok tt, st)) as Ha.
  { unfold TORCH_INTERNAL_ASSERT_DEBUG_ONLY, is_sparse_csr.
    destruct Hcsr as [->| ->]; [done|]. rewrite bool_decide_eq_true_2 by done.
    by destruct NDEBUG. }
  split.
  - intros Hv. unfold addmv_out_sparse_csr, bind. rewrite Ha.
    rewrite TORCH_CHECK_pass by (by apply bool_decide_eq_true_2).
    by rewrite TORCH_CHECK_fail by (by apply bool_decide_eq_false_2).
  - intros Hv Hb. destruct (expand_size_rejects _ _ st Hb) as (msg & He).
    exists msg. unfold addmv_out_sparse_csr, bind. rewrite Ha.
    rewrite !TORCH_CHECK_pass by (by apply bool_decide_eq_true_2).
    unfold read. by rewrite He.
Qed.

(** X3. Whatever its outcome, a call of [addmv] changes no tensor other than
    the output: [self], when it is a distinct object, and every other
    location hold what they held before. *)
Theorem addmv_writes_only_output kernel NDEBUG self mat vec beta alpha result
    (st : store) r st' :
  addmv_out_sparse_csr zero mul uninitialized kernel NDEBUG
    self mat vec beta alpha result st = (r, st') →
  ∀ l, l ≠ result → st' !! l = st !! l.
Proof.
  intros Hrun l Hl. destruct r as [r|e].
  - pose proof Hrun as Hacc. apply addmv_ok_accepts in Hacc.
    destruct Hacc as (Hcsr & Hm & Hv & Hb).
    destruct (expand_size_ok (st !!! self) (size mat 0) st Hb) as (s_ & He & _).
    rewrite (addmv_run kernel NDEBUG self mat vec beta alpha result st s_) in Hrun by done.
    injection Hrun as _ <-. by rewrite lookup_insert_ne.
  - apply addmv_throw_frame in Hrun. by subst.
Qed.

(** ** addmv: the general case *)

(** X4. The bias-plus-product contract: with stored entries in [mat], β ≠ 0
    and a backend kernel that honours its contract, an accepted call whose
    output is distinct from [self] (or whose [self] already has shape (m,))
    leaves an m-vector whose element [i] is β·self[i] + α·(mat @ vec)[i],
    where a [self] of shape (1,) or () contributes its single element to
    every row. *)
Theorem addmv_scaled_bias_plus_product NDEBUG self mat vec beta alpha result (st : store) :
  addmv_accepts NDEBUG (st !!! self) mat vec →
  _nnz mat ≠ 0 →
  beta ≠ zero →
  result ≠ self ∨ sizes (st !!! self) = [size mat 0] →
  ∃ st',
    addmv_out_sparse_csr zero mul uninitialized (addmv_kernel_contract zero add mul) NDEBUG
      self mat vec beta alpha result st = (Ok result, st') ∧
    sizes (st' !!! result) = [size mat 0] ∧
    length (values (st' !!! result)) = nrows mat ∧
    ∀ i, (i < nrows mat)%nat →
      values (st' !!! result) !! i =
      Some (add (mul beta (if decide (sizes (st !!! self) = [size mat 0])
                           then elem zero (values (st !!! self)) i
                           else item zero (st !!! self)))
                (mul alpha (row_dot zero add mul mat vec i))).
Proof.
  intros (Hcsr & Hm & Hv & Hb) Hnnz Hbeta Hshape.
  pose proof (expand_size_value (st !!! self) (size mat 0) st Hb) as He.
  eexists. split.
  { by eapply addmv_run. }
  rewrite lookup_total_insert_eq, (decide_False (P := _nnz mat = 0)) by done.
  unfold addmv_kernel_contract. rewrite bool_decide_eq_false_2 by done. simpl.
  split; [|split].
  - destruct (decide (result = self)) as [Heq|Hne]; [by destruct Hshape|].
    rewrite (decide_False (P := beta = zero)) by done. simpl.
    rewrite resize_output_sizes. by destruct (decide (sizes (st !!! self) = [size mat 0])).
  - by rewrite length_fmap, length_seq.
  - intros i Hi. rewrite list_lookup_fmap, lookup_seq_lt by done. simpl.
    do 3 f_equal.
    destruct (decide (result = self)) as [Heq|Hne].
    + destruct Hshape as [?|Hs]; [done|]. by rewrite decide_True.
    + rewrite (decide_False (P := beta = zero)) by done. simpl.
      destruct (decide (sizes (st !!! self) = [size mat 0])); [done|]. simpl.
      unfold elem. by rewrite lookup_replicate_2.
Qed.

(** X5. Nothing of what a distinct output buffer held before the call
    reaches the result: with a backend kernel that honours its contract, two
    accepted calls that differ only in the prior shape and elements of the
    output leave the same shape and the same elements in it. *)
Theorem addmv_prior_output_irrelevant NDEBUG self mat vec beta alpha result
    (st1 st2 : store) :
  result ≠ self →
  st1 !!! self = st2 !!! self →
  addmv_accepts NDEBUG (st1 !!! self) mat vec →
  ∃ st1' st2',
    addmv_out_sparse_csr zero mul uninitialized (addmv_kernel_contract zero add mul) NDEBUG
      self mat vec beta alpha result st1 = (Ok result, st1') ∧
    addmv_out_sparse_csr zero mul uninitialized (addmv_kernel_contract zero add mul) NDEBUG
      self mat vec beta alpha result st2 = (Ok result, st2') ∧
    sizes (st1' !!! result) = sizes (st2' !!! result) ∧
    values (st1' !!! result) = values (st2' !!! result).
Proof.
  intros Hne Hself (Hcsr & Hm & Hv & Hb).
  pose proof (expand_size_value (st1 !!! self) (size mat 0) st1 Hb) as He1.
  pose proof Hb as Hb2. rewrite Hself in Hb2.
  pose proof (expand_size_value (st2 !!! self) (size mat 0) st2 Hb2) as He2.
  do 2 eexists. split; [|split].
  { by eapply addmv_run. }
  { by eapply addmv_run. }
  rewrite !lookup_total_insert_eq, !(decide_False (P := result = self)) by done.
  rewrite <- Hself.
  destruct (decide (_nnz mat = 0)); destruct (decide (beta = zero)) as [Hz|Hz]; simpl.
  - unfold numel. simpl. by rewrite !resize_output_sizes.
  - done.
  - unfold addmv_kernel_contract. rewrite bool_decide_eq_true_2 by done. simpl.
    by rewrite !resize_output_sizes.
  - unfold addmv_kernel_contract. rewrite bool_decide_eq_false_2 by done. simpl.
    by rewrite !resize_output_sizes.
Qed.

(** ** Sampled addmm: acceptance, failures and frame *)

Lemma sampled_addmm_ok_accepts NDEBUG self mat1 mat2 beta alpha result (st : store) r st' :
  sampled_addmm NDEBUG out_of_range self mat1 mat2 beta alpha result st = (Ok r, st') →
  sampled_addmm_accepts NDEBUG out_of_range (st !!! self) (st !!! result) mat1 mat2.
Proof.
  unfold sparse_sampled_addmm_out_sparse_csr_cpu, bind, TORCH_INTERNAL_ASSERT_DEBUG_ONLY,
    TORCH_CHECK, read, throw, sampled_addmm_accepts, sampled_addmm_operands_ok,
    sampled_addmm_self_shape_ok, is_sparse_csr.
  destruct NDEBUG; [|case_bool_decide]; simpl; try congruence.
  all: do 12 (case_bool_decide; simpl; [|congruence]).
  all: intros _; repeat split; auto.
Qed.

Lemma sampled_addmm_throw_any_output NDEBUG self mat1 mat2 beta alpha result result'
    (st : store) e st' :
  st !!! result' = st !!! result →
  sampled_addmm NDEBUG out_of_range self mat1 mat2 beta alpha result st = (Throw e, st') →
  sampled_addmm NDEBUG out_of_range self mat1 mat2 beta alpha result' st = (Throw e, st').
Proof.
  intros Heq.
  unfold sparse_sampled_addmm_out_sparse_csr_cpu, bind, TORCH_INTERNAL_ASSERT_DEBUG_ONLY,
    TORCH_CHECK, read, throw.
  destruct NDEBUG; [|destruct (is_sparse_csr _)]; simpl; try done.
  all: do 2 (case_bool_decide; simpl; [|done]).
  all: rewrite Heq.
  all: do 10 (case_bool_decide; simpl; [|done]).
  all: repeat case_bool_decide; unfold modify, ret; simpl; congruence.
Qed.

(** The tensor an accepted call leaves in the output. *)
Lemma sampled_addmm_output NDEBUG self mat1 mat2 beta alpha result (st : store) :
  sampled_addmm_accepts NDEBUG out_of_range (st !!! self) (st !!! result) mat1 mat2 →
  sampled_addmm NDEBUG out_of_range self mat1 mat2 beta alpha result st =
  (Ok result,
   <[result := sparse_mask zero
                 (addmm zero add mul (to_dense zero (st !!! self)) mat1 mat2 beta alpha)
                 (st !!! self)]> st).
Proof.
  intros Hacc. rewrite sampled_addmm_run by done.
  destruct Hacc as (_ & (_ & _ & Hl & _ & _ & Ht & _) & _).
  do 2 f_equal.
  destruct (decide (result = self)) as [->|Hne].
  - unfold copy_, with_values, sparse_mask. simpl. by rewrite Hl.
  - unfold copy_, with_values, sparse_mask, resize_as_sparse_csr_. simpl. by rewrite Hl, Ht.
Qed.

(** X6. A call of sampled addmm that returns has passed every condition the
    function tests, and it returns the reference to the output it was
    handed. *)
Theorem sampled_addmm_success_implies_accepted NDEBUG self mat1 mat2 beta alpha result
    (st : store) r st' :
  sparse_sampled_addmm_out_sparse_csr_cpu zero add mul uninitialized NDEBUG out_of_range
    self mat1 mat2 beta alpha result st = (Ok r, st') →
  sampled_addmm_accepts NDEBUG out_of_range (st !!! self) (st !!! result) mat1 mat2 ∧
  r = result.
Proof.
  intros Hrun. pose proof Hrun as Hacc. apply sampled_addmm_ok_accepts in Hacc.
  split; [done|]. rewrite sampled_addmm_run in Hrun by done. congruence.
Qed.

(** X7. Whatever its outcome, a call of sampled addmm changes no tensor
    other than the output: [self], when it is a distinct object, and every
    other location hold what they held before. *)
Theorem sampled_addmm_writes_only_output NDEBUG self mat1 mat2 beta alpha result
    (st : store) r st' :
  sparse_sampled_addmm_out_sparse_csr_cpu zero add mul uninitialized NDEBUG out_of_range
    self mat1 mat2 beta alpha result st = (r, st') →
  ∀ l, l ≠ result → st' !! l = st !! l.
Proof.
  intros Hrun l Hl. destruct r as [r|e].
  - pose proof Hrun as Hacc. apply sampled_addmm_ok_accepts in Hacc.
    rewrite sampled_addmm_run in Hrun by done.
    injection Hrun as _ <-. by rewrite lookup_insert_ne.
  - apply sampled_addmm_throw_frame in Hrun. by subst.
Qed.

(** X8. What an accepted call leaves in the output is exactly the masked
    dense accumulation [addmm(self.to_dense(), mat1, mat2, β, α).sparse_mask(self)]:
    nothing of the prior shape, index arrays or values of the output
    survives, and its tags are the ones the checks have found equal. *)
Theorem sampled_addmm_output_is_masked_product NDEBUG self mat1 mat2 beta alpha result
    (st : store) :
  sampled_addmm_accepts NDEBUG out_of_range (st !!! self) (st !!! result) mat1 mat2 →
  ∃ st',
    sparse_sampled_addmm_out_sparse_csr_cpu zero add mul uninitialized NDEBUG out_of_range
      self mat1 mat2 beta alpha result st = (Ok result, st') ∧
    st' !!! result =
      sparse_mask zero
        (addmm zero add mul (to_dense zero (st !!! self)) mat1 mat2 beta alpha)
        (st !!! self).
Proof.
  intros Hacc. eexists. split; [by apply sampled_addmm_output|].
  by rewrite lookup_total_insert_eq.
Qed.

(** X9. Sampled addmm is alias-safe: passing [self] itself as the output
    gives the same outcome as passing a distinct buffer with the same initial
    contents, the same failure or the same tensor in the output. *)
Theorem sampled_addmm_alias_safe NDEBUG self out mat1 mat2 beta alpha (st : store) :
  out ≠ self →
  st !!! out = st !!! self →
  (∃ e,
     sparse_sampled_addmm_out_sparse_csr_cpu zero add mul uninitialized NDEBUG out_of_range
       self mat1 mat2 beta alpha self st = (Throw e, st) ∧
     sparse_sampled_addmm_out_sparse_csr_cpu zero add mul uninitialized NDEBUG out_of_range
       self mat1 mat2 beta alpha out st = (Throw e, st)) ∨
  (∃ t,
     sparse_sampled_addmm_out_sparse_csr_cpu zero add mul uninitialized NDEBUG out_of_range
       self mat1 mat2 beta alpha self st = (Ok self, <[self := t]> st) ∧
     sparse_sampled_addmm_out_sparse_csr_cpu zero add mul uninitialized NDEBUG out_of_range
       self mat1 mat2 beta alpha out st = (Ok out, <[out := t]> st)).
Proof.
  intros Hne Hsame.
  destruct (sampled_addmm NDEBUG out_of_range self mat1 mat2 beta alpha self st)
    as [[r|e] st1] eqn:Erun.
  - right. apply sampled_addmm_ok_accepts in Erun as Hacc.
    rewrite sampled_addmm_output in Erun by done.
    rewrite sampled_addmm_output by (by rewrite Hsame).
    eexists. split; [|reflexivity]. by rewrite <- Erun.
  - left. exists e. pose proof (sampled_addmm_throw_frame _ _ _ _ _ _ _ _ _ _ Erun) as ->.
    split; [done|]. by apply (sampled_addmm_throw_any_output _ _ _ _ _ _ self).
Qed.

(** X10. A [self] without stored entries: an accepted call on a well-formed
    [self] with nnz = 0 leaves an output without stored entries, whatever
    [mat1] and [mat2] hold. *)
Theorem sampled_addmm_empty_pattern NDEBUG self mat1 mat2 beta alpha result (st : store) :
  sampled_addmm_accepts NDEBUG out_of_range (st !!! self) (st !!! result) mat1 mat2 →
  csr_wf (st !!! self) = true →
  _nnz (st !!! self) = 0 →
  ∃ st',
    sparse_sampled_addmm_out_sparse_csr_cpu zero add mul uninitialized NDEBUG out_of_range
      self mat1 mat2 beta alpha result st = (Ok result, st') ∧
    values (st' !!! result) = [] ∧
    col_indices (st' !!! result) = [] ∧
    crow_indices (st' !!! result) = crow_indices (st !!! self).
Proof.
  intros Hacc Hwf Hnnz. eexists. split; [by apply sampled_addmm_output|].
  rewrite lookup_total_insert_eq.
  assert (length (col_indices (st !!! self)) = 0%nat) as Hlen
    by (unfold _nnz in Hnnz; lia).
  split; [|split; [|done]].
  - apply nil_length_inv. by rewrite sampled_values_length.
  - simpl. by apply nil_length_inv.
Qed.

(** ** Sampled addmm: which failure is reported, and what is never read *)

Lemma sampled_addmm_assert_passes NDEBUG (s : Tensor) (st : store) :
  NDEBUG = true ∨ layout s = kSparseCsr →
  TORCH_INTERNAL_ASSERT_DEBUG_ONLY (R:=R) NDEBUG (is_sparse_csr s) "self.is_sparse_csr()" st =
  (Ok tt, st).
Proof.
  intros Hcsr. unfold TORCH_INTERNAL_ASSERT_DEBUG_ONLY, is_sparse_csr.
  destruct Hcsr as [->|Hl]; [done|]. rewrite bool_decide_eq_true_2 by done.
  by destruct NDEBUG.
Qed.

Ltac sampled_addmm_first_failure :=
  intros;
  unfold sparse_sampled_addmm_out_sparse_csr_cpu, bind, read; simpl;
  rewrite sampled_addmm_assert_passes by assumption;
  rewrite ?TORCH_CHECK_pass by (apply bool_decide_eq_true_2; assumption);
  rewrite TORCH_CHECK_fail by (apply bool_decide_eq_false_2; assumption);
  reflexivity.

(** X11. The checks of sampled addmm run in a fixed order (the layouts of
    [mat1], [mat2], [result]; the three dtype agreements; the ranks of
    [mat1], [mat2], [result]; the inner dimensions; the two dimensions of
    [self]) and the first one violated decides the message, which spells out
    the offending layout, dtypes, rank or shapes. *)
Theorem sampled_addmm_first_violation_reported NDEBUG self mat1 mat2 beta alpha result
    (st : store) :
  let s := st !!! self in
  let r := st !!! result in
  let run := sparse_sampled_addmm_out_sparse_csr_cpu zero add mul uninitialized NDEBUG
               out_of_range self mat1 mat2 beta alpha result st in
  let fails msg := run = (Throw (CheckFailure msg), st) in
  let c1 := layout mat1 = kStrided in
  let c2 := layout mat2 = kStrided in
  let c3 := layout r = kSparseCsr in
  let c4 := scalar_type mat1 = scalar_type mat2 in
  let c5 := scalar_type mat1 = scalar_type s in
  let c6 := scalar_type r = scalar_type s in
  let c7 := dim mat1 = 2 in
  let c8 := dim mat2 = 2 in
  let c9 := dim r = 2 in
  let c10 := IntArrayRef_at out_of_range (sizes mat1) 1 =
             IntArrayRef_at out_of_range (sizes mat2) 0 in
  let c11 := IntArrayRef_at out_of_range (sizes s) 0 =
             IntArrayRef_at out_of_range (sizes mat1) 0 in
  let c12 := IntArrayRef_at out_of_range (sizes s) 1 =
             IntArrayRef_at out_of_range (sizes mat2) 1 in
  NDEBUG = true ∨ layout s = kSparseCsr →
  (¬ c1 →
   fails ("sampled_addmm: Expected mat1 to have strided layout, but got " +:+
          Layout_str (layout mat1))) ∧
  (c1 → ¬ c2 →
   fails ("sampled_addmm: Expected mat2 to have strided layout, but got " +:+
          Layout_str (layout mat2))) ∧
  (c1 → c2 → ¬ c3 →
   fails ("sampled_addmm: Expected result to have sparse csr layout, but got " +:+
          Layout_str (layout r))) ∧
  (c1 → c2 → c3 → ¬ c4 →
   fails ("sampled_addmm: Expected mat1 and mat2 to have the same dtype, but got " +:+
          ScalarType_str (scalar_type mat1) +:+ " and " +:+
          ScalarType_str (scalar_type mat2))) ∧
  (c1 → c2 → c3 → c4 → ¬ c5 →
   fails ("sampled_addmm: Expected mat1 and self to have the same dtype, but got " +:+
          ScalarType_str (scalar_type mat1) +:+ " and " +:+
          ScalarType_str (scalar_type s))) ∧
  (c1 → c2 → c3 → c4 → c5 → ¬ c6 →
   fails ("sampled_addmm: Expected result and self to have the same dtype, but got " +:+
          ScalarType_str (scalar_type r) +:+ " and " +:+
          ScalarType_str (scalar_type s))) ∧
  (c1 → c2 → c3 → c4 → c5 → c6 → ¬ c7 →
   fails ("sampled_addmm: Expected mat1 to be a matrix, got " +:+
          pretty (dim mat1) +:+ "-D tensor")) ∧
  (c1 → c2 → c3 → c4 → c5 → c6 → c7 → ¬ c8 →
   fails ("sampled_addmm: Expected mat2 to be a matrix, got " +:+
          pretty (dim mat2) +:+ "-D tensor")) ∧
  (c1 → c2 → c3 → c4 → c5 → c6 → c7 → c8 → ¬ c9 →
   fails ("sampled_addmm: Expected result to be a matrix, got " +:+
          pretty (dim r) +:+ "-D tensor")) ∧
  (c1 → c2 → c3 → c4 → c5 → c6 → c7 → c8 → c9 → ¬ c10 →
   fails ("sampled_addmm: mat1 and mat2 shapes cannot be multiplied (" +:+
          pretty (size mat1 0) +:+ "x" +:+ pretty (size mat1 1) +:+ " and " +:+
          pretty (size mat2 0) +:+ "x" +:+ pretty (size mat2 1) +:+ ")")) ∧
  (c1 → c2 → c3 → c4 → c5 → c6 → c7 → c8 → c9 → c10 → ¬ c11 →
   fails "sampled_addmm: self dim 0 must match mat1 dim 0") ∧
  (c1 → c2 → c3 → c4 → c5 → c6 → c7 → c8 → c9 → c10 → c11 → ¬ c12 →
   fails "sampled_addmm: self dim 1 must match mat2 dim 1").
Proof.
  intros s r run fails c1 c2 c3 c4 c5 c6 c7 c8 c9 c10 c11 c12 Hcsr.
  subst s r run fails c1 c2 c3 c4 c5 c6 c7 c8 c9 c10 c11 c12. simpl.
  repeat split; try sampled_addmm_first_failure.
  intros.
  assert (length (sizes mat1) = 2%nat) as Hl1 by (unfold dim in *; lia).
  assert (length (sizes mat2) = 2%nat) as Hl2 by (unfold dim in *; lia).
  unfold size.
  rewrite <- !(IntArrayRef_at_in_range (sizes mat1)) by lia.
  rewrite <- !(IntArrayRef_at_in_range (sizes mat2)) by lia.
  sampled_addmm_first_failure.
Qed.

Lemma IntArrayRef_at_any (oor : list Z → nat → Z) (a : list Z) (i : nat) :
  (i < length a)%nat → IntArrayRef_at oor a i = a !!! i.
Proof.
  intros Hi. unfold IntArrayRef_at.
  destruct (lookup_lt_is_Some_2 a i Hi) as [x Hx].
  by rewrite (list_lookup_total_correct _ _ _ Hx), Hx.
Qed.

(** X12. No read past the end of a shape array can influence a call whose
    [self] has rank 2 or more: the shapes of [mat1] and [mat2] are read only
    after their rank checks have passed, so the outcome is the same whatever
    such a read would yield. *)
Theorem sampled_addmm_shape_reads_guarded NDEBUG (oor1 oor2 : list Z → nat → Z)
    self mat1 mat2 beta alpha result (st : store) :
  (2 ≤ length (sizes (st !!! self)))%nat →
  sparse_sampled_addmm_out_sparse_csr_cpu zero add mul uninitialized NDEBUG oor1
    self mat1 mat2 beta alpha result st =
  sparse_sampled_addmm_out_sparse_csr_cpu zero add mul uninitialized NDEBUG oor2
    self mat1 mat2 beta alpha result st.
Proof.
  intros Hs.
  unfold sparse_sampled_addmm_out_sparse_csr_cpu, bind, TORCH_INTERNAL_ASSERT_DEBUG_ONLY,
    TORCH_CHECK, read, throw.
  destruct NDEBUG; [|destruct (is_sparse_csr _)]; simpl; try done.
  all: do 6 (case_bool_decide; simpl; [|done]).
  all: case_bool_decide as Hd1; simpl; [|done].
  all: case_bool_decide as Hd2; simpl; [|done].
  all: case_bool_decide as Hd3; simpl; [|done].
  all: unfold dim in Hd1, Hd2.
  all: rewrite !(IntArrayRef_at_any oor1), !(IntArrayRef_at_any oor2) by lia.
  all: done.
Qed.

(** ** The allocating variant of sampled addmm *)

Lemma fresh_not_allocated (st : store) l : is_Some (st !! l) → l ≠ fresh (dom st).
Proof.
  intros Hl ->. apply elem_of_dom in Hl. by apply is_fresh in Hl.
Qed.

(** X13. The allocating variant, on a CSR [self] that is an allocated
    tensor and operands that pass the checks on [mat1], [mat2] and the shape
    of [self], returns exactly the masked dense accumulation; every tensor
    that existed before the call, [self] included, is unchanged. *)
Theorem sampled_addmm_alloc_returns_masked_product NDEBUG self mat1 mat2 beta alpha
    (st : store) :
  is_Some (st !! self) →
  layout (st !!! self) = kSparseCsr →
  layout mat1 = kStrided → layout mat2 = kStrided →
  scalar_type mat1 = scalar_type mat2 → scalar_type mat1 = scalar_type (st !!! self) →
  dim mat1 = 2 → dim mat2 = 2 →
  IntArrayRef_at out_of_range (sizes mat1) 1 = IntArrayRef_at out_of_range (sizes mat2) 0 →
  sampled_addmm_self_shape_ok out_of_range (st !!! self) mat1 mat2 →
  ∃ st',
    sparse_sampled_addmm_sparse_csr_cpu zero add mul uninitialized NDEBUG out_of_range
      self mat1 mat2 beta alpha st =
    (Ok (sparse_mask zero
           (addmm zero add mul (to_dense zero (st !!! self)) mat1 mat2 beta alpha)
           (st !!! self)), st') ∧
    ∀ l, is_Some (st !! l) → st' !! l = st !! l.
Proof.
  intros Hself Hl H1 H2 H3 H4 H5 H6 H7 H8.
  pose proof (fresh_not_allocated st self Hself) as Hne.
  unfold sparse_sampled_addmm_sparse_csr_cpu, bind, read, empty_like_options. simpl.
  rewrite sampled_addmm_output.
  - simpl. rewrite lookup_total_insert_eq, (lookup_total_insert_ne _ (fresh (dom st))) by done.
    eexists. split; [reflexivity|].
    intros l Hsome. apply fresh_not_allocated in Hsome.
    by rewrite !lookup_insert_ne.
  - rewrite lookup_total_insert_eq, lookup_total_insert_ne by done.
    split; [by right|]. split; [|done]. by repeat split.
Qed.

(** X14. The allocating variant creates its output with the layout of
    [self], so in a release build a [self] that is not CSR (with strided
    [mat1] and [mat2]) is rejected by the check on the layout of the output,
    whose message reports the layout of [self]; in a debug build the internal
    assertion fires.  Every tensor that existed before the call is
    unchanged. *)
Theorem sampled_addmm_alloc_rejects_non_csr_self self mat1 mat2 beta alpha (st : store) :
  is_Some (st !! self) →
  layout (st !!! self) ≠ kSparseCsr →
  layout mat1 = kStrided → layout mat2 = kStrided →
  (∃ st',
     sparse_sampled_addmm_sparse_csr_cpu zero add mul uninitialized true out_of_range
       self mat1 mat2 beta alpha st =
     (Throw (CheckFailure
        ("sampled_addmm: Expected result to have sparse csr layout, but got " +:+
         Layout_str (layout (st !!! self)))), st') ∧
     ∀ l, is_Some (st !! l) → st' !! l = st !! l) ∧
  (∃ st',
     sparse_sampled_addmm_sparse_csr_cpu zero add mul uninitialized false out_of_range
       self mat1 mat2 beta alpha st =
     (Throw (InternalAssertFailure "self.is_sparse_csr()"), st') ∧
     ∀ l, is_Some (st !! l) → st' !! l = st !! l).
Proof.
  intros Hself Hl H1 H2.
  pose proof (fresh_not_allocated st self Hself) as Hne.
  split.
  - unfold sparse_sampled_addmm_sparse_csr_cpu, sparse_sampled_addmm_out_sparse_csr_cpu,
      bind, read, empty_like_options, TORCH_INTERNAL_ASSERT_DEBUG_ONLY. simpl.
    rewrite !TORCH_CHECK_pass by (by apply bool_decide_eq_true_2).
    rewrite lookup_total_insert_eq, lookup_total_insert_ne by done. simpl.
    rewrite TORCH_CHECK_fail by (by apply bool_decide_eq_false_2).
    eexists. split; [reflexivity|].
    intros l Hsome. apply fresh_not_allocated in Hsome. by rewrite lookup_insert_ne.
  - unfold sparse_sampled_addmm_sparse_csr_cpu, sparse_sampled_addmm_out_sparse_csr_cpu,
      bind, read, empty_like_options, TORCH_INTERNAL_ASSERT_DEBUG_ONLY, is_sparse_csr. simpl.
    rewrite lookup_total_insert_ne by done.
    rewrite bool_decide_eq_false_2 by done.
    eexists. split; [reflexivity|].
    intros l Hsome. apply fresh_not_allocated in Hsome. by rewrite lookup_insert_ne.
Qed.

End Properties.

(** * The operations on integer tensors *)

#[local] Abbreviation addmv_Z :=
  (addmv_out_sparse_csr 0 Z.mul stale_buffer (addmv_kernel_contract 0 Z.add Z.mul)).
#[local] Abbreviation sampled_addmm_Z :=
  (sparse_sampled_addmm_out_sparse_csr_cpu 0 Z.add Z.mul stale_buffer).


(** C2. With β = 0 the result must be exactly α·(mat @ vec), an m-vector.
    When the output is [self] itself and [self] has to be broadcast, lines
    41-46 are skipped and the output keeps the shape of [self]: with the
    empty 3×3 matrix, [self] = [9] and β = 0 the call leaves the one-element
    vector [0], not the three-element α·(mat @ vec) = [0, 0, 0]. *)
Lemma addmv_beta_zero_aliased_broadcast_counterexample :
  ∃ st',
    addmv_Z true 0%nat empty3x3 (vector [1; 1; 1]) 0 5 0%nat (store_of [vector [9]]) =
      (Ok 0%nat, st') ∧
    values (st' !!! 0%nat) = [0] ∧
    Z.mul 5 <$> matvec 0 Z.add Z.mul empty3x3 (vector [1; 1; 1]) = [0; 0; 0] ∧
    values (st' !!! 0%nat) ≠ Z.mul 5 <$> matvec 0 Z.add Z.mul empty3x3 (vector [1; 1; 1]).
Proof.
  eexists. split; [vm_compute; reflexivity|].
  split; [vm_compute; reflexivity|]. split; [vm_compute; reflexivity|].
  vm_compute. discriminate.
Qed.

Lemma addmv_beta_zero_ignores_self_witness :
  ∃ st',
    addmv_Z true 0%nat lower2x2 (vector [1; 10]) 0 5 1%nat
      (store_of [vector [9; 8]; vector [7]]) = (Ok 1%nat, st') ∧
    values (st' !!! 1%nat) = [10; 155] ∧
    sizes (st' !!! 1%nat) = [2].
Proof.
  destruct (addmv_beta_zero_ignores_self 0 Z.add Z.mul stale_buffer true 0%nat lower2x2
              (vector [1; 10]) 5 1%nat (store_of [vector [9; 8]; vector [7]]))
    as [_ Hzero].
  destruct Hzero as (st' & Hrun & Hval & Hsz).
  - repeat split; try reflexivity. by left. by left.
  - reflexivity.
  - reflexivity.
  - left. discriminate.
  - exists st'. split; [exact Hrun|]. split; [exact Hval | exact Hsz].
Defined.

(** C5. [addmv] must give the same result with the output aliasing [self]
    as with a distinct output of the same contents.  When [self] has to be
    broadcast the aliased call skips the resize that the distinct-output path
    performs: with the empty 3×3 matrix, [self] = [9] and β = 0, the aliased
    call leaves [0] of shape (1,) and the call with a distinct copy of [self]
    leaves [0, 0, 0] of shape (3,). *)
Lemma addmv_alias_broadcast_counterexample :
  ∃ st1 st2,
    store_of [vector [9]; vector [9]] !!! 1%nat =
      store_of [vector [9]; vector [9]] !!! 0%nat ∧
    addmv_Z true 0%nat empty3x3 (vector [1; 1; 1]) 0 5 0%nat
      (store_of [vector [9]; vector [9]]) = (Ok 0%nat, st1) ∧
    addmv_Z true 0%nat empty3x3 (vector [1; 1; 1]) 0 5 1%nat
      (store_of [vector [9]; vector [9]]) = (Ok 1%nat, st2) ∧
    st1 !!! 0%nat = vector [0] ∧
    st2 !!! 1%nat = vector [0; 0; 0] ∧
    st1 !!! 0%nat ≠ st2 !!! 1%nat.
Proof.
  do 2 eexists. split; [vm_compute; reflexivity|].
  split; [vm_compute; reflexivity|]. split; [vm_compute; reflexivity|].
  split; [vm_compute; reflexivity|]. split; [vm_compute; reflexivity|].
  vm_compute. discriminate.
Qed.

Lemma addmv_alias_safe_same_shape_witness :
  ∃ t,
    addmv_Z true 0%nat lower2x2 (vector [1; 10]) 2 5 0%nat
      (store_of [vector [9; 8]; vector [9; 8]]) =
      (Ok 0%nat, <[0%nat := t]> (store_of [vector [9; 8]; vector [9; 8]])) ∧
    addmv_Z true 0%nat lower2x2 (vector [1; 10]) 2 5 1%nat
      (store_of [vector [9; 8]; vector [9; 8]]) =
      (Ok 1%nat, <[1%nat := t]> (store_of [vector [9; 8]; vector [9; 8]])).
Proof.
  destruct (addmv_alias_safe_same_shape 0 Z.add Z.mul stale_buffer
              (addmv_kernel_contract 0 Z.add Z.mul) true 0%nat 1%nat lower2x2
              (vector [1; 10]) 2 5 (store_of [vector [9; 8]; vector [9; 8]]))
    as [(e & Hthrow & _) | (t & Hself & Hout)].
  - discriminate.
  - reflexivity.
  - reflexivity.
  - vm_compute in Hthrow. discriminate.
  - exists t. split; [exact Hself | exact Hout].
Defined.



(** C9: solving into [X] with a distinct pass-through buffer. *)
Lemma triangular_solve_returns_buffers_witness :
  ∃ st',
    triangular_solve_out_sparse_csr_cpu unit_diagonal_solve (matrix 2 1 [5; 6]) eye2x2
      false false true 0%nat 1%nat (store_of [matrix 0 0 []; eye2x2]) =
      (Ok (0%nat, 1%nat), st') ∧
    st' !!! 0%nat = matrix 2 1 [5; 6] ∧
    st' !! 1%nat = Some eye2x2.
Proof.
  destruct (triangular_solve_returns_buffers unit_diagonal_solve (matrix 2 1 [5; 6]) eye2x2
              false false true 0%nat 1%nat (store_of [matrix 0 0 []; eye2x2]))
    as (Hrun & Hclone & _).
  eexists. split; [exact Hrun|]. split; [reflexivity|].
  etrans; [apply Hclone; discriminate | reflexivity].
Defined.

(** C3. In an accepted call on a well-formed rank-2 [self], the output
    stores one value per stored coordinate of [self], at the same
    coordinates, and the value at the stored coordinate (i, j) is
    α·(mat1 @ mat2)[i, j] + β·self[i, j].  On 2×3 and 3×2 all-ones matrices
    and the 2×2 identity pattern with values {1, 1}, α = β = 1, the output is
    the identity pattern with values {4, 4}. *)
Theorem sampled_addmm_values_at_stored_coordinates :
  (∀ (R : Type) (zero : R) (add mul : R → R → R) (uninitialized : nat → list R)
     (out_of_range : list Z → nat → Z) (NDEBUG : bool) (self result : loc)
     (mat1 mat2 : Tensor R) (beta alpha : R) (st : gmap loc (Tensor R)),
     sampled_addmm_accepts NDEBUG out_of_range (st !!! self) (st !!! result) mat1 mat2 →
     dim (st !!! self) = 2 →
     csr_wf (st !!! self) = true →
     ∃ st',
       sparse_sampled_addmm_out_sparse_csr_cpu zero add mul uninitialized NDEBUG out_of_range
         self mat1 mat2 beta alpha result st = (Ok result, st') ∧
       sizes (st' !!! result) = sizes (st !!! self) ∧
       crow_indices (st' !!! result) = crow_indices (st !!! self) ∧
       col_indices (st' !!! result) = col_indices (st !!! self) ∧
       length (values (st' !!! result)) = length (col_indices (st !!! self)) ∧
       ∀ i k, (i < nrows (st !!! self))%nat →
         (row_start (st !!! self) i ≤ k < row_start (st !!! self) (S i))%nat →
         values (st' !!! result) !! k =
         Some (add (mul alpha (matmul_entry zero add mul mat1 mat2 i (col_at (st !!! self) k)))
                   (mul beta (elem zero (values (st !!! self)) k)))) ∧
  (∃ st',
     sampled_addmm_Z true stray_read 0%nat (matrix 2 3 [1; 1; 1; 1; 1; 1])
       (matrix 3 2 [1; 1; 1; 1; 1; 1]) 1 1 1%nat (store_of [eye2x2; empty_csr_out]) =
       (Ok 1%nat, st') ∧
     st' !!! 1%nat = csr 2 2 [0; 1; 2] [0; 1] [4; 4]).
Proof.
  split.
  - intros. by apply sampled_addmm_stored_values.
  - eexists. split; vm_compute; reflexivity.
Qed.

Lemma sampled_addmm_values_at_stored_coordinates_witness :
  ∃ st',
    sampled_addmm_Z true stray_read 0%nat (matrix 2 3 [1; 2; 3; 4; 5; 6])
      (matrix 3 2 [1; 2; 3; 4; 5; 6]) 10 1 1%nat (store_of [lower2x2; empty_csr_out]) =
      (Ok 1%nat, st') ∧
    values (st' !!! 1%nat) !! 1%nat = Some (1 * 49 + 10 * 1).
Proof.
  destruct sampled_addmm_values_at_stored_coordinates as [Hgen _].
  destruct (Hgen Z 0 Z.add Z.mul stale_buffer stray_read true 0%nat 1%nat
              (matrix 2 3 [1; 2; 3; 4; 5; 6]) (matrix 3 2 [1; 2; 3; 4; 5; 6]) 10 1
              (store_of [lower2x2; empty_csr_out]))
    as (st' & Hrun & _ & _ & _ & _ & Hval).
  - split; [by left|]. split; repeat split; reflexivity.
  - reflexivity.
  - reflexivity.
  - exists st'. split; [exact Hrun|].
    apply (Hval 1%nat 1%nat).
    + vm_compute. auto.
    + vm_compute. auto.
Defined.

Lemma sampled_addmm_keeps_pattern_witness :
  ∃ st',
    sampled_addmm_Z true stray_read 0%nat (matrix 2 3 [1; 2; 3; 4; 5; 6])
      (matrix 3 2 [1; 2; 3; 4; 5; 6]) 10 1 1%nat (store_of [lower2x2; empty_csr_out]) =
      (Ok 1%nat, st') ∧
    crow_indices (st' !!! 1%nat) = [0; 1; 3] ∧
    col_indices (st' !!! 1%nat) = [0; 0; 1].
Proof.
  destruct (sampled_addmm_keeps_pattern 0 Z.add Z.mul stale_buffer stray_read true 0%nat
              (matrix 2 3 [1; 2; 3; 4; 5; 6]) (matrix 3 2 [1; 2; 3; 4; 5; 6]) 10 1 1%nat
              (store_of [lower2x2; empty_csr_out]))
    as (st' & Hrun & Hcrow & Hcol & _).
  - split; [by left|]. split; repeat split; reflexivity.
  - exists st'. split; [exact Hrun|]. split; [exact Hcrow | exact Hcol].
Defined.

(** C6: a product of a 2×3 by a 2×2 matrix is rejected. *)
Lemma sampled_addmm_rejects_invalid_operands_witness :
  ∃ msg,
    sampled_addmm_Z true stray_read 0%nat (matrix 2 3 [1; 2; 3; 4; 5; 6])
      (matrix 2 2 [1; 2; 3; 4]) 10 1 1%nat (store_of [lower2x2; empty_csr_out]) =
      (Throw (CheckFailure msg), store_of [lower2x2; empty_csr_out]) ∧
    String.prefix "sampled_addmm: " msg = true.
Proof.
  apply (sampled_addmm_rejects_invalid_operands 0 Z.add Z.mul stale_buffer stray_read true
           0%nat (matrix 2 3 [1; 2; 3; 4; 5; 6]) (matrix 2 2 [1; 2; 3; 4]) 10 1 1%nat
           (store_of [lower2x2; empty_csr_out])).
  - by left.
  - do 9 right. left. discriminate.
Defined.

(** C7: a failing call of each operation. *)
Lemma failed_validation_leaves_output_untouched_witness :
  snd (addmv_Z true 0%nat lower2x2 (matrix 1 2 [1; 10]) 2 5 1%nat
         (store_of [vector [9; 8]; vector []])) =
    store_of [vector [9; 8]; vector []] ∧
  snd (sampled_addmm_Z true stray_read 0%nat (matrix 2 3 [1; 2; 3; 4; 5; 6])
         (vector [1; 2; 3; 4]) 10 1 1%nat (store_of [lower2x2; empty_csr_out])) =
    store_of [lower2x2; empty_csr_out].
Proof.
  split.
  - destruct (failed_validation_leaves_output_untouched 0 Z.add Z.mul stale_buffer stray_read
                (addmv_kernel_contract 0 Z.add Z.mul) true 0%nat 1%nat 2 5
                (store_of [vector [9; 8]; vector []])) as [Haddmv _].
    apply (Haddmv lower2x2 (matrix 1 2 [1; 10])
             (CheckFailure "addmv: Expected vec to be 1-D")).
    reflexivity.
  - destruct (failed_validation_leaves_output_untouched 0 Z.add Z.mul stale_buffer stray_read
                (addmv_kernel_contract 0 Z.add Z.mul) true 0%nat 1%nat 10 1
                (store_of [lower2x2; empty_csr_out])) as [_ Hsampled].
    apply (Hsampled (matrix 2 3 [1; 2; 3; 4; 5; 6]) (vector [1; 2; 3; 4])
             (CheckFailure "sampled_addmm: Expected mat2 to be a matrix, got 1-D tensor")).
    reflexivity.
Defined.

(** C10: a [self] of rank 1 and length 2, with a 2×3 [mat1] and a 3×0
    [mat2], is accepted in a release build when the stray read past the end
    of its shape happens to be 0. *)
Lemma sampled_addmm_self_rank_unvalidated_witness :
  ∃ st',
    sampled_addmm_Z true stray_read 0%nat (matrix 2 3 [1; 2; 3; 4; 5; 6]) (matrix 3 0 [])
      1 1 1%nat
      (store_of [mkTensor kSparseCsr kLong [2] [0; 0; 0] [] []; empty_csr_out]) =
    (Ok 1%nat, st').
Proof.
  destruct (sampled_addmm_self_rank_unvalidated 0 Z.add Z.mul stale_buffer stray_read 0%nat
              (matrix 2 3 [1; 2; 3; 4; 5; 6]) (matrix 3 0 []) 1 1 1%nat
              (store_of [mkTensor kSparseCsr kLong [2] [0; 0; 0] [] []; empty_csr_out]))
    as (_ & _ & Haccept & _).
  - repeat split; reflexivity.
  - discriminate.
  - apply Haccept; reflexivity.
Defined.

(** * The further properties on integer tensors *)

(** X1: a call that returns. *)
Lemma addmv_success_implies_accepted_witness :
  addmv_accepts true (vector [9; 8]) lower2x2 (vector [1; 10]) ∧ 1%nat = 1%nat.
Proof.
  apply (addmv_success_implies_accepted 0 Z.add Z.mul stale_buffer
           (addmv_kernel_contract 0 Z.add Z.mul) true 0%nat lower2x2 (vector [1; 10])
           2 5 1%nat (store_of [vector [9; 8]; vector [7]]) 1%nat
           (snd (addmv_Z true 0%nat lower2x2 (vector [1; 10]) 2 5 1%nat
                   (store_of [vector [9; 8]; vector [7]])))).
  reflexivity.
Defined.

(** X2: a 1×2 matrix in place of [vec], and a [self] of length 3 for a
    matrix with 2 rows. *)
Lemma addmv_vec_then_broadcast_checked_witness :
  addmv_Z true 0%nat lower2x2 (matrix 1 2 [1; 10]) 2 5 1%nat
    (store_of [vector [9; 8; 7]; vector []]) =
    (Throw (CheckFailure "addmv: Expected vec to be 1-D"),
     store_of [vector [9; 8; 7]; vector []]) ∧
  ∃ msg,
    addmv_Z true 0%nat lower2x2 (vector [1; 10]) 2 5 1%nat
      (store_of [vector [9; 8; 7]; vector []]) =
    (Throw (CheckFailure msg), store_of [vector [9; 8; 7]; vector []]).
Proof.
  split.
  - destruct (addmv_vec_then_broadcast_checked 0 Z.add Z.mul stale_buffer
                (addmv_kernel_contract 0 Z.add Z.mul) true 0%nat lower2x2
                (matrix 1 2 [1; 10]) 2 5 1%nat (store_of [vector [9; 8; 7]; vector []]))
      as [Hvec _]; [by left | reflexivity |].
    apply Hvec. discriminate.
  - destruct (addmv_vec_then_broadcast_checked 0 Z.add Z.mul stale_buffer
                (addmv_kernel_contract 0 Z.add Z.mul) true 0%nat lower2x2
                (vector [1; 10]) 2 5 1%nat (store_of [vector [9; 8; 7]; vector []]))
      as [_ Hself]; [by left | reflexivity |].
    apply Hself; [reflexivity|].
    intros [Hs | [Hs | Hs]]; discriminate Hs.
Defined.

(** X3: [self] after a call into a distinct output. *)
Lemma addmv_writes_only_output_witness :
  snd (addmv_Z true 0%nat lower2x2 (vector [1; 10]) 2 5 1%nat
         (store_of [vector [9; 8]; vector [7]])) !! 0%nat =
  Some (vector [9; 8]).
Proof.
  etrans.
  - apply (addmv_writes_only_output 0 Z.add Z.mul stale_buffer
             (addmv_kernel_contract 0 Z.add Z.mul) true 0%nat lower2x2 (vector [1; 10])
             2 5 1%nat (store_of [vector [9; 8]; vector [7]]) _ _
             (surjective_pairing _) 0%nat).
    discriminate.
  - reflexivity.
Defined.

(** X4: [[2, 0], [1, 3]] · [1, 10] = [2, 31]; 2·[9, 8] + 5·[2, 31] is
    [28, 171]. *)
Lemma addmv_scaled_bias_plus_product_witness :
  ∃ st',
    addmv_Z true 0%nat lower2x2 (vector [1; 10]) 2 5 1%nat
      (store_of [vector [9; 8]; vector [7]]) = (Ok 1%nat, st') ∧
    values (st' !!! 1%nat) !! 1%nat = Some (2 * 8 + 5 * 31).
Proof.
  destruct (addmv_scaled_bias_plus_product 0 Z.add Z.mul stale_buffer true 0%nat lower2x2
              (vector [1; 10]) 2 5 1%nat (store_of [vector [9; 8]; vector [7]]))
    as (st' & Hrun & _ & _ & Hval).
  - repeat split; try reflexivity. by left. by left.
  - discriminate.
  - discriminate.
  - left. discriminate.
  - exists st'. split; [exact Hrun|]. apply (Hval 1%nat). vm_compute. auto.
Defined.

(** X5: an output that held [7] and one that held [1, 2, 3]. *)
Lemma addmv_prior_output_irrelevant_witness :
  ∃ st1' st2',
    addmv_Z true 0%nat lower2x2 (vector [1; 10]) 2 5 1%nat
      (store_of [vector [9; 8]; vector [7]]) = (Ok 1%nat, st1') ∧
    addmv_Z true 0%nat lower2x2 (vector [1; 10]) 2 5 1%nat
      (store_of [vector [9; 8]; vector [1; 2; 3]]) = (Ok 1%nat, st2') ∧
    sizes (st1' !!! 1%nat) = sizes (st2' !!! 1%nat) ∧
    values (st1' !!! 1%nat) = values (st2' !!! 1%nat).
Proof.
  apply (addmv_prior_output_irrelevant 0 Z.add Z.mul stale_buffer true 0%nat lower2x2
           (vector [1; 10]) 2 5 1%nat (store_of [vector [9; 8]; vector [7]])
           (store_of [vector [9; 8]; vector [1; 2; 3]])).
  - discriminate.
  - reflexivity.
  - repeat split; try reflexivity. by left. by left.
Defined.

(** X6: a call that returns. *)
Lemma sampled_addmm_success_implies_accepted_witness :
  sampled_addmm_accepts true stray_read lower2x2 empty_csr_out
    (matrix 2 3 [1; 2; 3; 4; 5; 6]) (matrix 3 2 [1; 2; 3; 4; 5; 6]) ∧ 1%nat = 1%nat.
Proof.
  apply (sampled_addmm_success_implies_accepted 0 Z.add Z.mul stale_buffer stray_read true
           0%nat (matrix 2 3 [1; 2; 3; 4; 5; 6]) (matrix 3 2 [1; 2; 3; 4; 5; 6]) 10 1
           1%nat (store_of [lower2x2; empty_csr_out]) 1%nat
           (snd (sampled_addmm_Z true stray_read 0%nat (matrix 2 3 [1; 2; 3; 4; 5; 6])
                   (matrix 3 2 [1; 2; 3; 4; 5; 6]) 10 1 1%nat
                   (store_of [lower2x2; empty_csr_out])))).
  reflexivity.
Defined.

(** X7: [self] after a call into a distinct output. *)
Lemma sampled_addmm_writes_only_output_witness :
  snd (sampled_addmm_Z true stray_read 0%nat (matrix 2 3 [1; 2; 3; 4; 5; 6])
         (matrix 3 2 [1; 2; 3; 4; 5; 6]) 10 1 1%nat (store_of [lower2x2; empty_csr_out]))
    !! 0%nat = Some lower2x2.
Proof.
  etrans.
  - apply (sampled_addmm_writes_only_output 0 Z.add Z.mul stale_buffer stray_read true
             0%nat (matrix 2 3 [1; 2; 3; 4; 5; 6]) (matrix 3 2 [1; 2; 3; 4; 5; 6]) 10 1
             1%nat (store_of [lower2x2; empty_csr_out]) _ _ (surjective_pairing _) 0%nat).
    discriminate.
  - reflexivity.
Defined.

(** X8: mat1 @ mat2 = [[22, 28], [49, 64]]; on the pattern of
    [[2, 0], [1, 3]] with β = 10, α = 1 the values are 42, 59, 94. *)
Lemma sampled_addmm_output_is_masked_product_witness :
  ∃ st',
    sampled_addmm_Z true stray_read 0%nat (matrix 2 3 [1; 2; 3; 4; 5; 6])
      (matrix 3 2 [1; 2; 3; 4; 5; 6]) 10 1 1%nat (store_of [lower2x2; empty_csr_out]) =
    (Ok 1%nat, st') ∧
    st' !!! 1%nat = csr 2 2 [0; 1; 3] [0; 0; 1] [42; 59; 94].
Proof.
  destruct (sampled_addmm_output_is_masked_product 0 Z.add Z.mul stale_buffer stray_read
              true 0%nat (matrix 2 3 [1; 2; 3; 4; 5; 6]) (matrix 3 2 [1; 2; 3; 4; 5; 6])
              10 1 1%nat (store_of [lower2x2; empty_csr_out])) as (st' & Hrun & Hout).
  - split; [by left|]. split; repeat split; reflexivity.
  - exists st'. split; [exact Hrun|]. etrans; [exact Hout | reflexivity].
Defined.

(** X9: the in-place call and the call into a copy of [self]. *)
Lemma sampled_addmm_alias_safe_witness :
  ∃ t,
    sampled_addmm_Z true stray_read 0%nat (matrix 2 3 [1; 2; 3; 4; 5; 6])
      (matrix 3 2 [1; 2; 3; 4; 5; 6]) 10 1 0%nat (store_of [lower2x2; lower2x2]) =
    (Ok 0%nat, <[0%nat := t]> (store_of [lower2x2; lower2x2])) ∧
    sampled_addmm_Z true stray_read 0%nat (matrix 2 3 [1; 2; 3; 4; 5; 6])
      (matrix 3 2 [1; 2; 3; 4; 5; 6]) 10 1 1%nat (store_of [lower2x2; lower2x2]) =
    (Ok 1%nat, <[1%nat := t]> (store_of [lower2x2; lower2x2])).
Proof.
  destruct (sampled_addmm_alias_safe 0 Z.add Z.mul stale_buffer stray_read true 0%nat 1%nat
              (matrix 2 3 [1; 2; 3; 4; 5; 6]) (matrix 3 2 [1; 2; 3; 4; 5; 6]) 10 1
              (store_of [lower2x2; lower2x2]))
    as [(e & Hthrow & _) | (t & Hself & Hout)].
  - discriminate.
  - reflexivity.
  - vm_compute in Hthrow. discriminate.
  - exists t. split; [exact Hself | exact Hout].
Defined.

(** X10: the 2×2 pattern without stored entries. *)
Lemma sampled_addmm_empty_pattern_witness :
  ∃ st',
    sampled_addmm_Z true stray_read 0%nat (matrix 2 3 [1; 2; 3; 4; 5; 6])
      (matrix 3 2 [1; 2; 3; 4; 5; 6]) 10 1 1%nat
      (store_of [csr 2 2 [0; 0; 0] [] []; empty_csr_out]) = (Ok 1%nat, st') ∧
    values (st' !!! 1%nat) = [] ∧
    col_indices (st' !!! 1%nat) = [].
Proof.
  destruct (sampled_addmm_empty_pattern 0 Z.add Z.mul stale_buffer stray_read true 0%nat
              (matrix 2 3 [1; 2; 3; 4; 5; 6]) (matrix 3 2 [1; 2; 3; 4; 5; 6]) 10 1 1%nat
              (store_of [csr 2 2 [0; 0; 0] [] []; empty_csr_out]))
    as (st' & Hrun & Hval & Hcol & _).
  - split; [by left|]. split; repeat split; reflexivity.
  - reflexivity.
  - reflexivity.
  - exists st'. split; [exact Hrun|]. split; [exact Hval | exact Hcol].
Defined.

(** X11: a 2×3 by 2×2 product, and a Long [mat1] against a Double [mat2] of
    the wrong rank. *)
Lemma sampled_addmm_first_violation_reported_witness :
  sampled_addmm_Z true stray_read 0%nat (matrix 2 3 [1; 2; 3; 4; 5; 6])
    (matrix 2 2 [1; 2; 3; 4]) 10 1 1%nat (store_of [lower2x2; empty_csr_out]) =
    (Throw (CheckFailure
       "sampled_addmm: mat1 and mat2 shapes cannot be multiplied (2x3 and 2x2)"),
     store_of [lower2x2; empty_csr_out]) ∧
  sampled_addmm_Z true stray_read 0%nat (matrix 2 3 [1; 2; 3; 4; 5; 6])
    (mkTensor kStrided kDouble [4] [] [] [1; 2; 3; 4]) 10 1 1%nat
    (store_of [lower2x2; empty_csr_out]) =
    (Throw (CheckFailure
       "sampled_addmm: Expected mat1 and mat2 to have the same dtype, but got Long and Double"),
     store_of [lower2x2; empty_csr_out]).
Proof.
  split.
  - pose proof (sampled_addmm_first_violation_reported 0 Z.add Z.mul stale_buffer stray_read
                  true 0%nat (matrix 2 3 [1; 2; 3; 4; 5; 6]) (matrix 2 2 [1; 2; 3; 4]) 10 1
                  1%nat (store_of [lower2x2; empty_csr_out])) as Hall.
    cbv zeta in Hall.
    destruct (Hall (or_introl eq_refl)) as (_ & _ & _ & _ & _ & _ & _ & _ & _ & Hshape & _).
    etrans; [apply Hshape; try reflexivity; discriminate | reflexivity].
  - pose proof (sampled_addmm_first_violation_reported 0 Z.add Z.mul stale_buffer stray_read
                  true 0%nat (matrix 2 3 [1; 2; 3; 4; 5; 6])
                  (mkTensor kStrided kDouble [4] [] [] [1; 2; 3; 4]) 10 1
                  1%nat (store_of [lower2x2; empty_csr_out])) as Hall.
    cbv zeta in Hall.
    destruct (Hall (or_introl eq_refl)) as (_ & _ & _ & Hdtype & _).
    etrans; [apply Hdtype; try reflexivity; discriminate | reflexivity].
Defined.

(** X12: two different stray values, on a rank-2 [self]. *)
Lemma sampled_addmm_shape_reads_guarded_witness :
  sampled_addmm_Z true stray_read 0%nat (matrix 2 3 [1; 2; 3; 4; 5; 6])
    (vector [1; 2; 3; 4]) 10 1 1%nat (store_of [lower2x2; empty_csr_out]) =
  sampled_addmm_Z true (λ _ _, 99) 0%nat (matrix 2 3 [1; 2; 3; 4; 5; 6])
    (vector [1; 2; 3; 4]) 10 1 1%nat (store_of [lower2x2; empty_csr_out]).
Proof.
  apply (sampled_addmm_shape_reads_guarded 0 Z.add Z.mul stale_buffer true stray_read
           (λ _ _, 99) 0%nat (matrix 2 3 [1; 2; 3; 4; 5; 6]) (vector [1; 2; 3; 4]) 10 1
           1%nat (store_of [lower2x2; empty_csr_out])).
  vm_compute. auto.
Defined.

(** X13: the all-ones product on the identity pattern, through the
    allocating variant. *)
Lemma sampled_addmm_alloc_returns_masked_product_witness :
  ∃ st',
    sparse_sampled_addmm_sparse_csr_cpu 0 Z.add Z.mul stale_buffer true stray_read 0%nat
      (matrix 2 3 [1; 1; 1; 1; 1; 1]) (matrix 3 2 [1; 1; 1; 1; 1; 1]) 1 1
      (store_of [eye2x2]) =
    (Ok (csr 2 2 [0; 1; 2] [0; 1] [4; 4]), st') ∧
    st' !! 0%nat = Some eye2x2.
Proof.
  destruct (sampled_addmm_alloc_returns_masked_product 0 Z.add Z.mul stale_buffer stray_read
              true 0%nat (matrix 2 3 [1; 1; 1; 1; 1; 1]) (matrix 3 2 [1; 1; 1; 1; 1; 1]) 1 1
              (store_of [eye2x2])) as (st' & Hrun & Hframe).
  - exists eye2x2. reflexivity.
  - reflexivity.
  - reflexivity.
  - reflexivity.
  - reflexivity.
  - reflexivity.
  - reflexivity.
  - reflexivity.
  - reflexivity.
  - split; reflexivity.
  - exists st'. split.
    + etrans; [exact Hrun | reflexivity].
    + etrans; [apply Hframe; exists eye2x2; reflexivity | reflexivity].
Defined.

(** X14: a strided [self] handed to the allocating variant. *)
Lemma sampled_addmm_alloc_rejects_non_csr_self_witness :
  ∃ st',
    sparse_sampled_addmm_sparse_csr_cpu 0 Z.add Z.mul stale_buffer true stray_read 0%nat
      (matrix 2 3 [1; 1; 1; 1; 1; 1]) (matrix 3 2 [1; 1; 1; 1; 1; 1]) 1 1
      (store_of [matrix 2 2 [1; 0; 0; 1]]) =
    (Throw (CheckFailure
       "sampled_addmm: Expected result to have sparse csr layout, but got Strided"), st') ∧
    st' !! 0%nat = Some (matrix 2 2 [1; 0; 0; 1]).
Proof.
  destruct (sampled_addmm_alloc_rejects_non_csr_self 0 Z.add Z.mul stale_buffer stray_read
              0%nat (matrix 2 3 [1; 1; 1; 1; 1; 1]) (matrix 3 2 [1; 1; 1; 1; 1; 1]) 1 1
              (store_of [matrix 2 2 [1; 0; 0; 1]])) as [(st' & Hrun & Hframe) _].
  - exists (matrix 2 2 [1; 0; 0; 1]). reflexivity.
  - discriminate.
  - reflexivity.
  - reflexivity.
  - exists st'. split.
    + etrans; [exact Hrun | reflexivity].
    + etrans; [apply Hframe; exists (matrix 2 2 [1; 0; 0; 1]); reflexivity | reflexivity].
Defined.
